(** * Vayesta: the auxiliary second-order Green's function solver (RAGF2 / EAGF2)

    A shallow embedding of the control flow of [vayesta/eagf2/ragf2.py] and
    [vayesta/eagf2/eagf2.py]: the pole containers, the DIIS wrapper, the Dyson
    step, the Fock loop and the two outer drivers.

    Conventions.
    - A numpy [float64] is read as an exact rational ([Q]); [np.inf], the
      default of two tolerances, is a separate constructor of [tolerance].
      NaN is outside the model.
    - A Python [int] is a [Z]; [range(a, b)] is [py_range a b].
    - Dense linear algebra ([numpy.linalg.eigh], Fock builds, density matrices,
      the chemical-potential searches of [pyscf.agf2.chempot]) is taken as
      parameters of the sections below: the development fixes what the solver
      does with their results, not what they compute.
    - Calls to [self.log], with the values computed only to be printed, are
      side output and are left out. *)

From Stdlib Require Import List ZArith QArith Qabs Bool Lia Permutation.
From Stdlib Require Import Sorting.Sorted Lqa.
From Stdlib Require String.
Import ListNotations String.StringSyntax.

Abbreviation string := String.string.

Set Implicit Arguments.

Local Open Scope string_scope.
Local Open Scope Q_scope.

(** ** Python and numpy helpers *)

Module Py.

(** [range(lo, hi)]: empty when [hi <= lo]. *)
Definition py_range (lo hi : Z) : list Z :=
  map (fun k => (lo + Z.of_nat k)%Z) (seq 0 (Z.to_nat (hi - lo))).

(** [x < y] on floats. *)
Definition Qltb (x y : Q) : bool :=
  match x ?= y with Lt => true | _ => false end.

(** Truth value of a float: everything but zero. *)
Definition truthy (x : Q) : bool := negb (Qeq_bool x 0).

(** [x or d] where [x] is [None] or a float. *)
Definition float_or (x : option Q) (d : Q) : Q :=
  match x with
  | Some v => if truthy v then v else d
  | None => d
  end.

(** [x or d] where [x] is [None] or an object that is always true. *)
Definition obj_or {A : Type} (x : option A) (d : A) : A :=
  match x with Some v => v | None => d end.

(** A tolerance option: a float or [np.inf]. *)
Inductive tolerance : Type :=
| Finite (q : Q)
| Inf.

(** [d < tol] for a finite [d]. *)
Definition below (d : Q) (tol : tolerance) : bool :=
  match tol with
  | Finite q => Qltb d q
  | Inf => true
  end.

Definition matrix : Type := list (list Q).


Lemma py_range_nil lo hi : (hi <= lo)%Z -> py_range lo hi = [].
Proof.
  intros H. unfold py_range.
  replace (Z.to_nat (hi - lo)) with 0%nat by lia. reflexivity.
Qed.

Lemma py_range_cons lo hi :
  (lo < hi)%Z -> py_range lo hi = lo :: py_range (lo + 1) hi.
Proof.
  intros H. unfold py_range.
  replace (Z.to_nat (hi - lo)) with (S (Z.to_nat (hi - (lo + 1)))) by lia.
  simpl. f_equal; [lia|].
  rewrite <- seq_shift, map_map. apply map_ext. intros k. lia.
Qed.

Lemma py_range_adjacent hi l1 x y l2 : forall lo,
  py_range lo hi = l1 ++ x :: y :: l2 -> y = (x + 1)%Z.
Proof.
  induction l1 as [|a l1 IH]; intros lo E.
  - destruct (Z_lt_le_dec lo hi) as [L|L];
      [|rewrite py_range_nil in E by exact L; discriminate].
    rewrite py_range_cons in E by exact L. simpl in E.
    injection E as Ex E'. subst x.
    destruct (Z_lt_le_dec (lo + 1) hi) as [L'|L'];
      [|rewrite py_range_nil in E' by exact L'; discriminate].
    rewrite py_range_cons in E' by exact L'. now injection E' as -> _.
  - destruct (Z_lt_le_dec lo hi) as [L|L];
      [|rewrite py_range_nil in E by exact L; discriminate].
    rewrite py_range_cons in E by exact L. simpl in E.
    injection E as _ E'. exact (IH _ E').
Qed.

Lemma Qltb_lt x y : Qltb x y = true <-> x < y.
Proof.
  unfold Qltb. rewrite Qlt_alt. destruct (x ?= y); split; congruence.
Qed.

Lemma Qltb_ge x y : Qltb x y = false <-> y <= x.
Proof.
  split; intro H.
  - apply Qnot_lt_le. intro L. apply Qltb_lt in L. congruence.
  - destruct (Qltb x y) eqn:E; [|reflexivity].
    apply Qltb_lt in E. exfalso. exact (Qlt_not_le _ _ E H).
Qed.

End Py.
Import Py.

(** ** Exceptions and the call log *)

(** The exceptions the modelled code raises or catches. *)
Inductive exn : Type :=
| LinAlgError
| ValueError (msg : string)
| UnboundLocalError
| AttributeError
| OtherError (name : string).

Inductive outcome (A : Type) : Type :=
| Ret (a : A)
| Raise (e : exn).
Arguments Ret {A} a.
Arguments Raise {A} e.

(** The numerical steps a Fock loop can take, in the order it takes them. *)
Inductive call : Type :=
| CallGetFock
| CallSolveDyson
| CallBinsearchChempot
| CallMinimizeChempot
| CallDamping
| CallMakeRdm1
| CallDIIS.

(** A computation that logs its calls and may raise. *)
Definition M (A : Type) : Type := list call * outcome A.

Definition ret {A} (a : A) : M A := ([], Ret a).
Definition raise {A} (e : exn) : M A := ([], Raise e).
Definition tell (c : call) : M unit := ([c], Ret tt).
Definition bind {A B} (m : M A) (f : A -> M B) : M B :=
  match m with
  | (t, Ret a) => let (t', r) := f a in (t ++ t', r)
  | (t, Raise e) => (t, Raise e)
  end.

Notation "x <- m ;; k" := (bind m (fun x => k))
  (at level 61, m at next level, right associativity).
Notation "m ;;; k" := (bind m (fun _ => k))
  (at level 61, right associativity).

Definition log_of {A} (m : M A) : list call := fst m.
Definition result_of {A} (m : M A) : outcome A := snd m.

(** Reading a local variable that a loop body may not have bound yet. *)
Definition read_local {A} (v : option A) : M A :=
  match v with
  | Some a => ret a
  | None => raise UnboundLocalError
  end.

Lemma bind_ret_l {A B} (a : A) (f : A -> M B) : bind (ret a) f = f a.
Proof. unfold bind, ret. destruct (f a). reflexivity. Qed.

Lemma bind_raise {A B} (e : exn) (f : A -> M B) : bind (raise e) f = raise e.
Proof. reflexivity. Qed.

Lemma result_bind {A B} (m : M A) (f : A -> M B) :
  result_of (bind m f)
  = match result_of m with Ret a => result_of (f a) | Raise e => Raise e end.
Proof.
  destruct m as [t [a|e]]; simpl; [|reflexivity].
  now destruct (f a).
Qed.


(** A computation that does not end in a [LinAlgError]. *)
Definition never_LinAlgError {A} (m : M A) : Prop :=
  result_of m <> Raise LinAlgError.

Lemma never_ret {A} (a : A) : never_LinAlgError (ret a).
Proof. discriminate. Qed.

Lemma never_tell c : never_LinAlgError (tell c).
Proof. discriminate. Qed.

Lemma never_read_local {A} (v : option A) :
  never_LinAlgError (read_local v).
Proof. destruct v; discriminate. Qed.

Lemma never_bind {A B} (m : M A) (f : A -> M B) :
  never_LinAlgError m -> (forall a, never_LinAlgError (f a)) ->
  never_LinAlgError (bind m f).
Proof.
  unfold never_LinAlgError. intros Hm Hf. rewrite result_bind.
  destruct (result_of m) as [a|e]; [apply Hf|].
  intros E. apply Hm. inversion E. reflexivity.
Qed.

(** ** Pole containers ([pyscf.agf2.aux]) *)

(** [pyscf.agf2.aux] is a library the solver imports, not part of the
    repository; its classes [SelfEnergy] and [GreensFunction] share the
    container below, modelled after what the specification says of pole
    sets.  The numpy pair (energy of shape [naux], coupling of shape
    [nphys x naux]) is kept pole by pole: pole [k] is
    [(energy[k], coupling[:, k])]. *)
Module Aux.

Record pole : Type := Pole { energy : Q; coupling : list Q }.

Record AuxiliarySpace : Type := MkAux {
  nphys : nat;
  poles : list pole;
  chempot : Q
}.

Definition naux (a : AuxiliarySpace) : nat := length (poles a).

(** [numpy.argsort] on the pole energies: the poles in ascending energy.
    Insertion keeps equal energies in their order; numpy promises no order
    among them. *)
Fixpoint insert (p : pole) (l : list pole) : list pole :=
  match l with
  | [] => [p]
  | q :: l' =>
      if Qle_bool (energy p) (energy q) then p :: l else q :: insert p l'
  end.

Definition argsort (l : list pole) : list pole := fold_right insert [] l.

(** Modelled from the spec: the constructor [AuxiliarySpace(energy, coupling,
    chempot)] of [pyscf.agf2.aux], a set of poles with a chemical potential;
    the poles are stored in ascending energy. *)
Definition new (n : nat) (ps : list pole) (mu : Q) : AuxiliarySpace :=
  MkAux n (argsort ps) mu.

(** The poles of the arrays [(e, v)]: [v] is given by rows. *)
Definition poles_of_arrays (e : list Q) (v : matrix) : list pole :=
  map (fun k => Pole (nth k e 0) (map (fun row => nth k row 0) v))
      (seq 0 (length e)).

Definition of_arrays (e : list Q) (v : matrix) (mu : Q) : AuxiliarySpace :=
  new (length v) (poles_of_arrays e v) mu.

(** The arrays of a container: [a.energy] and [a.coupling] (by rows). *)
Definition energies (a : AuxiliarySpace) : list Q := map energy (poles a).

Definition coupling_rows (a : AuxiliarySpace) : matrix :=
  map (fun i => map (fun p => nth i (coupling p) 0) (poles a))
      (seq 0 (nphys a)).

(** [numpy.linalg.norm(v, axis=0) ** 2] for one column, in exact arithmetic. *)
Definition weight (p : pole) : Q :=
  fold_right (fun c acc => c * c + acc) 0 (coupling p).

Definition coupled (tol : Q) (p : pole) : bool := Qle_bool tol (weight p).

(** Modelled from the spec: [AuxiliarySpace.remove_uncoupled(tol)] of
    [pyscf.agf2.aux], the pruning of uncoupled poles: a pole stays when the
    squared norm of its coupling vector is at least [tol]. *)
Definition remove_uncoupled (tol : Q) (a : AuxiliarySpace) : AuxiliarySpace :=
  MkAux (nphys a) (filter (coupled tol) (poles a)) (chempot a).

(** Modelled from the spec: [pyscf.agf2.aux.combine(a, b)], the concatenation
    of two pole sets; size and chemical potential come from the first. *)
Definition combine (a b : AuxiliarySpace) : AuxiliarySpace :=
  new (nphys a) (poles a ++ poles b) (chempot a).

Fixpoint take_while {A} (f : A -> bool) (l : list A) : list A :=
  match l with
  | [] => []
  | x :: l' => if f x then x :: take_while f l' else []
  end.

(** [numpy.searchsorted(a, v)] (side left) on a sorted array: the number of
    leading entries below [v]. *)
Definition searchsorted (a : list Q) (v : Q) : nat :=
  length (take_while (fun x => Qltb x v) a).

(** Modelled from the spec: [get_occupied] and [get_virtual] of
    [pyscf.agf2.aux], the split of a container at its chemical potential. *)
Definition get_occupied (a : AuxiliarySpace) : AuxiliarySpace :=
  let nocc := searchsorted (energies a) (chempot a) in
  new (nphys a) (firstn nocc (poles a)) (chempot a).

Definition get_virtual (a : AuxiliarySpace) : AuxiliarySpace :=
  let nocc := searchsorted (energies a) (chempot a) in
  new (nphys a) (skipn nocc (poles a)) (chempot a).

(** A container whose every pole passes the pruning test at [tol]. *)
Definition pruned (tol : Q) (a : AuxiliarySpace) : Prop :=
  Forall (fun p => coupled tol p = true) (poles a).

Definition le_energy (p q : pole) : Prop := energy p <= energy q.

(** *** Facts on sorting and filtering *)

Lemma insert_perm p l : Permutation (insert p l) (p :: l).
Proof.
  induction l as [|q l IH]; simpl.
  - apply Permutation_refl.
  - destruct (Qle_bool (energy p) (energy q)).
    + apply Permutation_refl.
    + eapply Permutation_trans; [apply perm_skip, IH | apply perm_swap].
Qed.

Lemma argsort_perm l : Permutation (argsort l) l.
Proof.
  induction l as [|p l IH]; simpl.
  - constructor.
  - eapply Permutation_trans; [apply insert_perm | now apply perm_skip].
Qed.

Lemma insert_sorted p l :
  StronglySorted le_energy l -> StronglySorted le_energy (insert p l).
Proof.
  induction 1 as [|q l Hs IH Hq]; simpl.
  - repeat constructor.
  - destruct (Qle_bool (energy p) (energy q)) eqn:E.
    + apply Qle_bool_iff in E. constructor.
      * now constructor.
      * constructor; [exact E|].
        eapply Forall_impl; [|exact Hq].
        intros r Hr. unfold le_energy in *. now apply Qle_trans with (energy q).
    + assert (Hqp : energy q <= energy p).
      { destruct (Qlt_le_dec (energy q) (energy p)) as [L|L].
        - now apply Qlt_le_weak.
        - apply Qle_bool_iff in L. congruence. }
      constructor; [exact IH|].
      eapply Permutation_Forall; [apply Permutation_sym, insert_perm|].
      constructor; assumption.
Qed.

Lemma argsort_sorted l : StronglySorted le_energy (argsort l).
Proof.
  induction l; simpl; [constructor | now apply insert_sorted].
Qed.

Lemma insert_head_le p l :
  Forall (le_energy p) l -> insert p l = p :: l.
Proof.
  destruct l as [|q l]; simpl; [reflexivity|].
  intros H. inversion H as [|? ? Hpq _]; subst.
  apply Qle_bool_iff in Hpq. now rewrite Hpq.
Qed.

Lemma argsort_id l : StronglySorted le_energy l -> argsort l = l.
Proof.
  induction 1 as [|p l Hs IH Hp]; simpl; [reflexivity|].
  rewrite IH. now apply insert_head_le.
Qed.

Lemma filter_sorted (f : pole -> bool) l :
  StronglySorted le_energy l -> StronglySorted le_energy (filter f l).
Proof.
  induction 1 as [|p l Hs IH Hp]; simpl; [constructor|].
  destruct (f p); [|exact IH].
  constructor; [exact IH|].
  apply Forall_forall. intros q Hq. apply filter_In in Hq.
  rewrite Forall_forall in Hp. now apply Hp.
Qed.

Lemma filter_all {A} (f : A -> bool) l :
  Forall (fun x => f x = true) l -> filter f l = l.
Proof.
  induction 1 as [|x l Hx _ IH]; simpl; [reflexivity|].
  now rewrite Hx, IH.
Qed.

Lemma filter_none {A} (f : A -> bool) l :
  Forall (fun x => f x = false) l -> filter f l = [].
Proof.
  induction 1 as [|x l Hx _ IH]; simpl; [reflexivity|].
  now rewrite Hx.
Qed.

Lemma filter_idem {A} (f : A -> bool) l : filter f (filter f l) = filter f l.
Proof.
  apply filter_all, Forall_forall. intros x Hx.
  now apply filter_In in Hx.
Qed.

Lemma filter_perm {A} (f : A -> bool) l l' :
  Permutation l l' -> Permutation (filter f l) (filter f l').
Proof.
  induction 1 as [|x l l' _ IH|x y l|l l' l'' _ IH1 _ IH2]; simpl.
  - constructor.
  - destruct (f x); [now apply perm_skip | exact IH].
  - destruct (f x), (f y); try apply Permutation_refl. apply perm_swap.
  - now apply Permutation_trans with (filter f l').
Qed.

(** *** The split at the chemical potential *)

Lemma firstn_take_while {A} (f : A -> bool) l :
  firstn (length (take_while f l)) l = take_while f l.
Proof.
  induction l as [|x l IH]; simpl; [reflexivity|].
  destruct (f x); simpl; [now rewrite IH | reflexivity].
Qed.

Lemma take_while_map {A B} (g : A -> B) (f : B -> bool) l :
  take_while f (map g l) = map g (take_while (fun x => f (g x)) l).
Proof.
  induction l as [|x l IH]; simpl; [reflexivity|].
  destruct (f (g x)); simpl; [now rewrite IH | reflexivity].
Qed.

Definition is_occupied (mu : Q) (p : pole) : bool := Qltb (energy p) mu.
Definition is_virtual (mu : Q) (p : pole) : bool := negb (Qltb (energy p) mu).

Lemma searchsorted_energies l mu :
  searchsorted (map energy l) mu = length (take_while (is_occupied mu) l).
Proof.
  unfold searchsorted. now rewrite take_while_map, length_map.
Qed.

Lemma take_while_sorted mu l :
  StronglySorted le_energy l ->
  take_while (is_occupied mu) l = filter (is_occupied mu) l.
Proof.
  induction 1 as [|p l Hs IH Hp]; simpl; [reflexivity|].
  destruct (is_occupied mu p) eqn:E; [now rewrite IH|].
  symmetry. apply filter_none.
  eapply Forall_impl; [|exact Hp].
  intros q Hq. unfold is_occupied in *.
  apply Qltb_ge in E. apply Qltb_ge. now apply Qle_trans with (energy p).
Qed.

Lemma skipn_take_while_sorted mu l :
  StronglySorted le_energy l ->
  skipn (length (take_while (is_occupied mu) l)) l = filter (is_virtual mu) l.
Proof.
  induction 1 as [|p l Hs IH Hp]; simpl; [reflexivity|].
  unfold is_virtual at 1.
  destruct (is_occupied mu p) eqn:E; unfold is_occupied in E; rewrite E; simpl.
  - exact IH.
  - f_equal. symmetry. apply filter_all.
    eapply Forall_impl; [|exact Hp].
    intros q Hq. unfold is_virtual.
    apply Qltb_ge in E. apply negb_true_iff, Qltb_ge.
    now apply Qle_trans with (energy p).
Qed.

(** On a container sorted by energy the split keeps exactly the poles below,
    respectively not below, the chemical potential. *)
Lemma get_occupied_sorted a :
  StronglySorted le_energy (poles a) ->
  poles (get_occupied a) = filter (is_occupied (chempot a)) (poles a).
Proof.
  intros Hs. unfold get_occupied, energies, new. simpl.
  rewrite searchsorted_energies, firstn_take_while, take_while_sorted by exact Hs.
  apply argsort_id. now apply filter_sorted.
Qed.

Lemma get_virtual_sorted a :
  StronglySorted le_energy (poles a) ->
  poles (get_virtual a) = filter (is_virtual (chempot a)) (poles a).
Proof.
  intros Hs. unfold get_virtual, energies, new. simpl.
  rewrite searchsorted_energies, skipn_take_while_sorted by exact Hs.
  apply argsort_id. now apply filter_sorted.
Qed.

Lemma map_nth_seq {A} (l : list A) d :
  map (fun k => nth k l d) (seq 0 (length l)) = l.
Proof.
  induction l as [|x l IH]; simpl; [reflexivity|].
  f_equal. rewrite <- seq_shift, map_map. exact IH.
Qed.

(** The container of the arrays [(e, v)] has the entries of [e] as its pole
    energies and as many rows as [v]. *)
Lemma of_arrays_energies e v mu :
  Permutation (energies (of_arrays e v mu)) e.
Proof.
  unfold energies, of_arrays, new. simpl.
  eapply Permutation_trans; [apply Permutation_map, argsort_perm|].
  unfold poles_of_arrays. rewrite map_map. simpl.
  rewrite map_nth_seq. apply Permutation_refl.
Qed.


Lemma remove_uncoupled_idem tol a :
  remove_uncoupled tol (remove_uncoupled tol a) = remove_uncoupled tol a.
Proof.
  unfold remove_uncoupled. simpl. now rewrite filter_idem.
Qed.

Lemma remove_uncoupled_pruned tol a : pruned tol (remove_uncoupled tol a).
Proof.
  unfold pruned, remove_uncoupled. simpl.
  apply Forall_forall. intros p Hp. now apply filter_In in Hp.
Qed.

Lemma pruned_fixed tol a : pruned tol a -> remove_uncoupled tol a = a.
Proof.
  intros H. destruct a as [n ps mu]. unfold remove_uncoupled. simpl in *.
  now rewrite filter_all.
Qed.

End Aux.

(** ** Options ([RAGF2Options]) *)

(** The fields of the dataclass that steer the modelled code, with their
    defaults; [fock_basis] and the analysis and output fields are left out. *)
Module Opt.

Record RAGF2Options : Type := {
  weight_tol : Q;
  non_dyson : bool;
  nmom_lanczos : Z;
  nmom_projection : option Z;
  os_factor : Q;
  ss_factor : Q;
  diagonal_se : bool;
  max_cycle : Z;
  conv_tol : Q;
  conv_tol_t0 : tolerance;
  conv_tol_t1 : tolerance;
  damping : Q;
  diis_space : Z;
  diis_min_space : Z;
  as_adc : bool;
  extra_cycle : bool;
  fock_loop : bool;
  max_cycle_outer : Z;
  max_cycle_inner : Z;
  conv_tol_rdm1 : Q;
  conv_tol_nelec : Q;
  conv_tol_nelec_factor : Q;
  fock_diis_space : Z;
  fock_diis_min_space : Z;
  fock_damping : Q
}.

Definition defaults : RAGF2Options := {|
  weight_tol := 1e-12;
  non_dyson := false;
  nmom_lanczos := 0;
  nmom_projection := None;
  os_factor := 1;
  ss_factor := 1;
  diagonal_se := false;
  max_cycle := 50;
  conv_tol := 1e-7;
  conv_tol_t0 := Inf;
  conv_tol_t1 := Inf;
  damping := 0;
  diis_space := 6;
  diis_min_space := 1;
  as_adc := false;
  extra_cycle := true;
  fock_loop := true;
  max_cycle_outer := 20;
  max_cycle_inner := 50;
  conv_tol_rdm1 := 1e-8;
  conv_tol_nelec := 1e-6;
  conv_tol_nelec_factor := 1e-2;
  fock_diis_space := 8;
  fock_diis_min_space := 1;
  fock_damping := 0
|}.

(** [o] with four of its fields replaced. *)
Definition override (o : RAGF2Options) (adc loop : bool) (outer inner : Z)
    : RAGF2Options := {|
  weight_tol := weight_tol o;
  non_dyson := non_dyson o;
  nmom_lanczos := nmom_lanczos o;
  nmom_projection := nmom_projection o;
  os_factor := os_factor o;
  ss_factor := ss_factor o;
  diagonal_se := diagonal_se o;
  max_cycle := max_cycle o;
  conv_tol := conv_tol o;
  conv_tol_t0 := conv_tol_t0 o;
  conv_tol_t1 := conv_tol_t1 o;
  damping := damping o;
  diis_space := diis_space o;
  diis_min_space := diis_min_space o;
  as_adc := adc;
  extra_cycle := extra_cycle o;
  fock_loop := loop;
  max_cycle_outer := outer;
  max_cycle_inner := inner;
  conv_tol_rdm1 := conv_tol_rdm1 o;
  conv_tol_nelec := conv_tol_nelec o;
  conv_tol_nelec_factor := conv_tol_nelec_factor o;
  fock_diis_space := fock_diis_space o;
  fock_diis_min_space := fock_diis_min_space o;
  fock_damping := fock_damping o
|}.

End Opt.

(** ** The DIIS wrapper ([ragf2.DIIS]) *)

Section DIIS.

Variables (history vec : Type).

(** [lib.diis.DIIS.update] of pyscf: it pushes [x] on the history and
    extrapolates, or raises. *)
Variable lib_diis_update : history -> vec -> history * outcome vec.

(** [DIIS.update(x)]: the extrapolation, with [x] itself in place of a
    [LinAlgError]. *)
Definition DIIS_update (h : history) (x : vec) : history * outcome vec :=
  let (h', r) := lib_diis_update h x in
  match r with
  | Ret y => (h', Ret y)
  | Raise LinAlgError => (h', Ret x)
  | Raise e => (h', Raise e)
  end.

Lemma DIIS_update_not_LinAlgError h x :
  snd (DIIS_update h x) <> Raise LinAlgError.
Proof.
  unfold DIIS_update. destruct (lib_diis_update h x) as [h' [y|[]]];
    simpl; discriminate.
Qed.


Lemma DIIS_update_caught h x :
  snd (lib_diis_update h x) = Raise LinAlgError ->
  snd (DIIS_update h x) = Ret x.
Proof.
  unfold DIIS_update. destruct (lib_diis_update h x) as [h' r]. simpl.
  now intros ->.
Qed.

End DIIS.

(** ** Matrices *)

(** [numpy.block([[a, b], [c, d]])] on matrices given by rows. *)
Definition hstack (a b : matrix) : matrix :=
  map (fun rs => fst rs ++ snd rs) (List.combine a b).

Definition np_block (a b c d : matrix) : matrix := hstack a b ++ hstack c d.

(** [numpy.diag(e)]. *)
Definition np_diag (e : list Q) : matrix :=
  map (fun i => map (fun j => if Nat.eqb i j then nth i e 0 else 0)
                    (seq 0 (length e)))
      (seq 0 (length e)).

(** [m.T.conj()] for a real matrix of [ncols] columns. *)
Definition conj (x : Q) : Q := x.

Definition conj_transpose (ncols : nat) (m : matrix) : matrix :=
  map (fun k => map (fun row => conj (nth k row 0)) m) (seq 0 ncols).

(** [(1 - d) * a + d * b], entry by entry. *)
Definition mix (d x y : Q) : Q := (1 - d) * x + d * y.

Definition damp (d : Q) (a b : matrix) : matrix :=
  map (fun rs => map (fun xy => mix d (fst xy) (snd xy))
                     (List.combine (fst rs) (snd rs)))
      (List.combine a b).

(** ** The solver ([RAGF2]) *)

Abbreviation SelfEnergy := Aux.AuxiliarySpace.
Abbreviation GreensFunction := Aux.AuxiliarySpace.

(** The attributes of a [RAGF2] object the modelled methods read. *)
Record solver : Type := {
  opts : Opt.RAGF2Options;
  nact : nat;
  nocc : Z;
  frozen : Z * Z;
  self_gf : GreensFunction;
  self_se : SelfEnergy
}.

(** [x.chempot = mu]. *)
Definition set_chempot (a : Aux.AuxiliarySpace) (mu : Q) : Aux.AuxiliarySpace :=
  Aux.MkAux (Aux.nphys a) (Aux.poles a) mu.

(** What [fock_loop] hands back: three values, or four with the Fock matrix. *)
Inductive fock_loop_return : Type :=
| Return3 (gf : GreensFunction) (se : SelfEnergy) (converged : bool)
| Return4 (gf : GreensFunction) (se : SelfEnergy) (converged : bool)
          (fock : matrix).

Definition returned_gf (r : fock_loop_return) : GreensFunction :=
  match r with Return3 gf _ _ | Return4 gf _ _ _ => gf end.
Definition returned_se (r : fock_loop_return) : SelfEnergy :=
  match r with Return3 _ se _ | Return4 _ se _ _ => se end.
Definition returned_converged (r : fock_loop_return) : bool :=
  match r with Return3 _ _ c | Return4 _ _ c _ => c end.

Section Solver.

(** *** Numerical collaborators *)

(** [numpy.linalg.eigh]: eigenvalues and eigenvectors (by rows). *)
Variable eigh : matrix -> list Q * matrix.
(** [self.get_fock(gf=gf, with_frozen=False)] and
    [self.make_rdm1(gf=gf, with_frozen=False)]. *)
Variable get_fock : GreensFunction -> matrix.
Variable make_rdm1 : GreensFunction -> matrix.
(** [agf2.chempot.binsearch_chempot((w, v), nact, nelec)]: the chemical
    potential and the error in the number of electrons. *)
Variable binsearch_chempot : list Q * matrix -> nat -> Z -> Q * Q.
(** [agf2.chempot.minimize_chempot(se, fock, nelec, x0, tol, maxiter)]: the
    self-energy it returns. *)
Variable minimize_chempot : SelfEnergy -> matrix -> Z -> Q -> Q -> Z -> SelfEnergy.
(** [numpy.max(numpy.absolute(a - b))]. *)
Variable max_abs_change : matrix -> matrix -> Q.
(** [se.compress(n=(n, None), phys=fock)]. *)
Variable compress : Z -> matrix -> SelfEnergy -> SelfEnergy.
(** [a.moment(range(k))]. *)
Variable moments_of : Z -> Aux.AuxiliarySpace -> list matrix.
(** Lines 412-418 and 421-424 of [_build_se_from_moments]: the arrays
    [(e, v)] of the poles, from two eigendecompositions or from the block
    Lanczos recursion of [vayesta.eagf2.helper]. *)
Variable poles_by_eigh : list matrix -> list Q * matrix.
Variable poles_by_lanczos : list matrix -> list Q * matrix.
(** The integrals and the two moment contractions of [_build_moments]:
    [_agf2.build_mats_*_incore(xija, eo, ev, os_factor, ss_factor)] and the
    loop of lines 368-400, which gets [fpos] and [fneg]. *)
Variable integrals : Type.
Variable build_mats_incore : integrals -> list Q -> list Q -> Q -> Q -> list matrix.
Variable contract_moments :
  Z -> bool -> Q -> Q -> integrals -> list Q -> list Q -> list matrix.
(** The two DIIS objects of pyscf: one extrapolates Fock matrices, one the
    pair of moment sequences. *)
Variable diis : Type.
Variable new_diis : Z -> Z -> diis.
Variable lib_diis_fock : diis -> matrix -> diis * outcome matrix.
Variable lib_diis_moments :
  diis -> list matrix * list matrix -> diis * outcome (list matrix * list matrix).

Variable self : solver.

Definition nelec : Z := ((nocc self - fst (frozen self)) * 2)%Z.

(** *** [_build_moments] *)

(** Lines 358-359: the factors a call works with. *)
Definition effective_factors (os_factor ss_factor : option Q) : Q * Q :=
  (float_or os_factor (Opt.os_factor (opts self)),
   float_or ss_factor (Opt.ss_factor (opts self))).

Definition _build_moments (eo ev : list Q) (xija : integrals)
    (os_factor ss_factor : option Q) : list matrix :=
  let (os, ss) := effective_factors os_factor ss_factor in
  if (Opt.nmom_lanczos (opts self) =? 0)%Z && negb (Opt.diagonal_se (opts self))
  then build_mats_incore xija eo ev os ss
  else
    let fpos := os + ss in
    let fneg := - ss in
    contract_moments (2 * Opt.nmom_lanczos (opts self) + 2)
                     (Opt.diagonal_se (opts self)) fpos fneg xija eo ev.

(** *** [_build_se_from_moments] and [_combine_se] *)

Definition _build_se_from_moments (t : list matrix) (chempot : Q) : SelfEnergy :=
  let (e, v) :=
    if (Opt.nmom_lanczos (opts self) =? 0)%Z
    then poles_by_eigh t else poles_by_lanczos t in
  let se := Aux.of_arrays e v chempot in
  Aux.remove_uncoupled (Opt.weight_tol (opts self)) se.

Definition _combine_se (se_occ se_vir : SelfEnergy)
    (gf : option GreensFunction) : SelfEnergy :=
  let se := Aux.combine se_occ se_vir in
  let se :=
    match Opt.nmom_projection (opts self) with
    | Some n =>
        let gf := obj_or gf (self_gf self) in
        let fock := get_fock gf in
        compress n fock se
    | None => se
    end in
  Aux.remove_uncoupled (Opt.weight_tol (opts self)) se.

(** *** [run_diis] *)

Definition is_some {A} (x : option A) : bool :=
  match x with Some _ => true | None => false end.

Definition run_diis (se : SelfEnergy) (gf : option GreensFunction) (d : diis)
    (se_prev : option SelfEnergy) : diis * outcome SelfEnergy :=
  let k := (2 * Opt.nmom_lanczos (opts self) + 2)%Z in
  let t := (moments_of k (Aux.get_occupied se),
            moments_of k (Aux.get_virtual se)) in
  let t :=
    match se_prev with
    | Some prev =>
        if truthy (Opt.damping (opts self)) then
          let a := Opt.damping (opts self) in
          let t_prev := (moments_of k (Aux.get_occupied prev),
                         moments_of k (Aux.get_virtual prev)) in
          (map (fun m => damp a (fst m) (snd m)) (List.combine (fst t) (fst t_prev)),
           map (fun m => damp a (fst m) (snd m)) (List.combine (snd t) (snd t_prev)))
        else t
    | None => t
    end in
  let (d', r) := DIIS_update lib_diis_moments d t in
  match r with
  | Ret t =>
      let se_occ := _build_se_from_moments (fst t) (Aux.chempot se) in
      let se_vir := _build_se_from_moments (snd t) (Aux.chempot se) in
      (d', Ret (_combine_se se_occ se_vir gf))
  | Raise e => (d', Raise e)
  end.

(** *** [solve_dyson] *)

(** The matrix [f_ext] of line 645. *)
Definition dyson_matrix (fock : matrix) (se : SelfEnergy) : matrix :=
  let e := Aux.energies se in
  let v := Aux.coupling_rows se in
  np_block fock v (conj_transpose (length e) v) (np_diag e).

(** Entry [(i, j)] of a matrix. *)
Definition entry (m : matrix) (i j : nat) : Q := nth j (nth i m []) 0.

Definition default_fock (gf : GreensFunction) (fock : option matrix) : M matrix :=
  match fock with
  | Some f => ret f
  | None => tell CallGetFock ;;; ret (get_fock gf)
  end.

Definition solve_dyson (se : option SelfEnergy) (gf : option GreensFunction)
    (fock : option matrix) : M (list Q * matrix) :=
  let se := obj_or se (self_se self) in
  let gf := obj_or gf (self_gf self) in
  fock <- default_fock gf fock ;;
  tell CallSolveDyson ;;;
  ret (eigh (dyson_matrix fock se)).

(** *** [fock_loop] *)

(** The local variables of [fock_loop] that its loops read and write.  The
    last three are bound by the first pass of the inner loop only. *)
Record locals : Type := {
  l_se : SelfEnergy;
  l_gf : GreensFunction;
  l_fock : matrix;
  l_rdm1_prev : matrix;
  l_diis : diis;
  l_wv : option (list Q * matrix);
  l_nerr : option Q;
  l_derr : option Q
}.

Definition lift {A} (r : outcome A) : M A := ([], r).

Definition zeros_like (m : matrix) : matrix := map (map (fun _ => 0)) m.

(** Lines 705-707: the Dyson step of one pass: the eigenpairs, the error in
    the number of electrons, the self-energy with its new chemical potential
    and the Green's function. *)
Definition dyson_step (st : locals)
    : M (list Q * matrix * Q * SelfEnergy * GreensFunction) :=
  wv <- solve_dyson (Some (l_se st)) None (Some (l_fock st)) ;;
  tell CallBinsearchChempot ;;;
  let (mu, nerr) := binsearch_chempot wv (nact self) nelec in
  let se := set_chempot (l_se st) mu in
  let gf := Aux.of_arrays (fst wv) (firstn (nact self) (snd wv)) (Aux.chempot se) in
  ret (wv, nerr, se, gf).

(** Lines 705-720: one pass of the inner loop. *)
Definition fock_cycle (st : locals) : M locals :=
  x <- dyson_step st ;;
  let '(wv, nerr, se, gf) := x in
  let fock_prev := l_fock st in
  tell CallGetFock ;;;
  let fock := get_fock gf in
  fock <- (if truthy (Opt.fock_damping (opts self))
           then tell CallDamping ;;;
                ret (damp (Opt.fock_damping (opts self)) fock fock_prev)
           else ret fock) ;;
  tell CallMakeRdm1 ;;;
  let rdm1 := make_rdm1 gf in
  tell CallDIIS ;;;
  let (d', r) := DIIS_update lib_diis_fock (l_diis st) fock in
  fock <- lift r ;;
  let derr := max_abs_change rdm1 (l_rdm1_prev st) in
  ret {| l_se := se; l_gf := gf; l_fock := fock; l_rdm1_prev := rdm1;
         l_diis := d'; l_wv := Some wv; l_nerr := Some nerr;
         l_derr := Some derr |}.

(** Lines 704-725: the inner loop over [niter2]. *)
Fixpoint inner_loop (niter2s : list Z) (st : locals) : M locals :=
  match niter2s with
  | [] => ret st
  | _ :: rest =>
      st <- fock_cycle st ;;
      derr <- read_local (l_derr st) ;;
      if Qltb (Qabs derr) (Opt.conv_tol_rdm1 (opts self)) then ret st
      else inner_loop rest st
  end.

(** Lines 697-725: the search for the chemical potential and the inner loop
    of one outer cycle. *)
Definition outer_cycle (st : locals) : M locals :=
  tell CallMinimizeChempot ;;;
  let se := minimize_chempot (l_se st) (l_fock st) nelec
              (Aux.chempot (l_se st))
              (Opt.conv_tol_nelec (opts self)
               * Opt.conv_tol_nelec_factor (opts self))
              (Opt.max_cycle_inner (opts self)) in
  let st := {| l_se := se; l_gf := l_gf st; l_fock := l_fock st;
               l_rdm1_prev := l_rdm1_prev st; l_diis := l_diis st;
               l_wv := l_wv st; l_nerr := l_nerr st;
               l_derr := l_derr st |} in
  inner_loop (py_range 1 (Opt.max_cycle_inner (opts self) + 1)) st.

(** Line 729: [abs(derr) < conv_tol_rdm1 and abs(nerr) < conv_tol_nelec]. *)
Definition converged_test (st : locals) : M bool :=
  derr <- read_local (l_derr st) ;;
  if Qltb (Qabs derr) (Opt.conv_tol_rdm1 (opts self)) then
    nerr <- read_local (l_nerr st) ;;
    ret (Qltb (Qabs nerr) (Opt.conv_tol_nelec (opts self)))
  else ret false.

(** Lines 696-731: the outer loop over [niter1]; the flag is [converged]. *)
Fixpoint outer_loop (niter1s : list Z) (st : locals) : M (locals * bool) :=
  match niter1s with
  | [] => ret (st, false)
  | _ :: rest =>
      st <- outer_cycle st ;;
      c <- converged_test st ;;
      if c then ret (st, true) else outer_loop rest st
  end.

(** Lines 689-691: the locals on entry to the loops. *)
Definition initial_locals (gf : GreensFunction) (se : SelfEnergy)
    (fock : matrix) : locals :=
  {| l_se := se; l_gf := gf; l_fock := fock;
     l_rdm1_prev := zeros_like fock;
     l_diis := new_diis (Opt.fock_diis_space (opts self))
                        (Opt.fock_diis_min_space (opts self));
     l_wv := None; l_nerr := None; l_derr := None |}.

Definition fock_loop (gf : option GreensFunction) (se : option SelfEnergy)
    (fock : option matrix) (project_gf return_fock : bool)
    : M fock_loop_return :=
  let gf := obj_or gf (self_gf self) in
  let se := obj_or se (self_se self) in
  fock <- default_fock gf fock ;;
  if negb (Opt.fock_loop (opts self)) then
    wv <- solve_dyson (Some se) (Some gf) (Some fock) ;;
    let gf :=
      if project_gf
      then Aux.of_arrays (fst wv) (firstn (nact self) (snd wv)) (Aux.chempot se)
      else Aux.of_arrays (fst wv) (snd wv) (Aux.chempot se) in
    tell CallBinsearchChempot ;;;
    let mu := fst (binsearch_chempot wv (nact self) nelec) in
    ret (Return3 (set_chempot gf mu) (set_chempot se mu) true)
  else
    let st := initial_locals gf se fock in
    r <- outer_loop (py_range 1 (Opt.max_cycle_outer (opts self) + 1)) st ;;
    let (st, converged) := r in
    gf <- (if project_gf then ret (l_gf st)
           else wv <- read_local (l_wv st) ;;
                ret (Aux.of_arrays (fst wv) (snd wv) (Aux.chempot (l_se st)))) ;;
    ret (if return_fock then Return4 gf (l_se st) converged (l_fock st)
         else Return3 gf (l_se st) converged).





(** *** Facts on the self-energy builders *)

Lemma _build_se_from_moments_pruned t mu :
  Aux.pruned (Opt.weight_tol (opts self)) (_build_se_from_moments t mu).
Proof.
  unfold _build_se_from_moments.
  destruct (if (Opt.nmom_lanczos (opts self) =? 0)%Z
            then poles_by_eigh t else poles_by_lanczos t) as [e v].
  apply Aux.remove_uncoupled_pruned.
Qed.

Lemma _combine_se_pruned se_occ se_vir gf :
  Aux.pruned (Opt.weight_tol (opts self)) (_combine_se se_occ se_vir gf).
Proof. unfold _combine_se. apply Aux.remove_uncoupled_pruned. Qed.

Lemma _combine_se_concatenates se_occ se_vir gf :
  Opt.nmom_projection (opts self) = None ->
  _combine_se se_occ se_vir gf
  = Aux.remove_uncoupled (Opt.weight_tol (opts self)) (Aux.combine se_occ se_vir).
Proof. unfold _combine_se. now intros ->. Qed.

(** C5. Pruning uncoupled poles twice gives what pruning once gives, for
    every container and tolerance; and the self-energies that
    [_build_se_from_moments] and [_combine_se] return are left unchanged by
    pruning at [weight_tol]. *)
Theorem pruning_idempotent :
  (forall tol a,
      Aux.remove_uncoupled tol (Aux.remove_uncoupled tol a)
      = Aux.remove_uncoupled tol a)
  /\ (forall t mu,
      Aux.remove_uncoupled (Opt.weight_tol (opts self))
        (_build_se_from_moments t mu)
      = _build_se_from_moments t mu)
  /\ (forall se_occ se_vir gf,
      Aux.remove_uncoupled (Opt.weight_tol (opts self))
        (_combine_se se_occ se_vir gf)
      = _combine_se se_occ se_vir gf).
Proof.
  split; [|split]; intros.
  - apply Aux.remove_uncoupled_idem.
  - apply Aux.pruned_fixed, _build_se_from_moments_pruned.
  - apply Aux.pruned_fixed, _combine_se_pruned.
Qed.

(** The poles of two pruned self-energies survive [_combine_se], up to order. *)
Lemma _combine_se_poles se_occ se_vir gf :
  Opt.nmom_projection (opts self) = None ->
  Aux.pruned (Opt.weight_tol (opts self)) se_occ ->
  Aux.pruned (Opt.weight_tol (opts self)) se_vir ->
  Permutation (Aux.poles (_combine_se se_occ se_vir gf))
              (Aux.poles se_occ ++ Aux.poles se_vir).
Proof.
  intros Hn Ho Hv. rewrite _combine_se_concatenates by exact Hn.
  unfold Aux.remove_uncoupled, Aux.combine, Aux.new. simpl.
  eapply Permutation_trans.
  - apply Aux.filter_perm, Aux.argsort_perm.
  - rewrite Aux.filter_all; [apply Permutation_refl|].
    apply Forall_app. split; assumption.
Qed.

Lemma _combine_se_sorted se_occ se_vir gf :
  Opt.nmom_projection (opts self) = None ->
  StronglySorted Aux.le_energy (Aux.poles (_combine_se se_occ se_vir gf)).
Proof.
  intros Hn. rewrite _combine_se_concatenates by exact Hn.
  unfold Aux.remove_uncoupled, Aux.combine, Aux.new. simpl.
  apply Aux.filter_sorted, Aux.argsort_sorted.
Qed.

Lemma _combine_se_chempot se_occ se_vir gf :
  Opt.nmom_projection (opts self) = None ->
  Aux.chempot (_combine_se se_occ se_vir gf) = Aux.chempot se_occ.
Proof. intros Hn. rewrite _combine_se_concatenates by exact Hn. reflexivity. Qed.

(** C6, amended. Two self-energies already pruned at [weight_tol], the first
    with every pole energy below its chemical potential and the second with
    none below it, are recovered, up to the order of the poles, by combining
    them with [_combine_se] (no moment projection) and splitting the result
    with [get_occupied] and [get_virtual]. *)
Theorem combine_split_roundtrip se_occ se_vir gf :
  Opt.nmom_projection (opts self) = None ->
  Aux.pruned (Opt.weight_tol (opts self)) se_occ ->
  Aux.pruned (Opt.weight_tol (opts self)) se_vir ->
  Forall (fun p => Aux.energy p < Aux.chempot se_occ) (Aux.poles se_occ) ->
  Forall (fun p => Aux.chempot se_occ <= Aux.energy p) (Aux.poles se_vir) ->
  let se := _combine_se se_occ se_vir gf in
  Permutation (Aux.poles (Aux.get_occupied se)) (Aux.poles se_occ)
  /\ Permutation (Aux.poles (Aux.get_virtual se)) (Aux.poles se_vir).
Proof.
  intros Hn Ho Hv Eo Ev se.
  pose proof (_combine_se_sorted se_occ se_vir gf Hn) as Hs.
  pose proof (_combine_se_poles gf Hn Ho Hv) as Hp.
  pose proof (_combine_se_chempot se_occ se_vir gf Hn) as Hmu.
  fold se in Hs, Hp, Hmu.
  assert (Oo : Forall (fun p => Aux.is_occupied (Aux.chempot se_occ) p = true)
                      (Aux.poles se_occ)).
  { eapply Forall_impl; [|exact Eo]. intros p Hlt. now apply Qltb_lt. }
  assert (Ov : Forall (fun p => Aux.is_occupied (Aux.chempot se_occ) p = false)
                      (Aux.poles se_vir)).
  { eapply Forall_impl; [|exact Ev]. intros p Hle. now apply Qltb_ge. }
  split.
  - rewrite Aux.get_occupied_sorted, Hmu by exact Hs.
    eapply Permutation_trans; [apply Aux.filter_perm, Hp|].
    rewrite filter_app, (Aux.filter_all _ Oo), (Aux.filter_none _ Ov), app_nil_r.
    apply Permutation_refl.
  - rewrite Aux.get_virtual_sorted, Hmu by exact Hs.
    eapply Permutation_trans; [apply Aux.filter_perm, Hp|].
    rewrite filter_app.
    rewrite (@Aux.filter_none _ _ (Aux.poles se_occ)),
            (@Aux.filter_all _ _ (Aux.poles se_vir)).
    + apply Permutation_refl.
    + eapply Forall_impl; [|exact Ov]. intros p E. unfold Aux.is_virtual.
      unfold Aux.is_occupied in E. now rewrite E.
    + eapply Forall_impl; [|exact Oo]. intros p E. unfold Aux.is_virtual.
      unfold Aux.is_occupied in E. now rewrite E.
Qed.

(** *** Facts on [_build_moments] *)

(** C10. A call of [_build_moments] with [os_factor=0.0] (or
    [ss_factor=0.0]) works with the factor of the options, and returns what
    the call without that argument returns. *)
Theorem zero_factor_falls_back (eo ev : list Q) (xija : integrals)
    (os ss : option Q) :
  fst (effective_factors (Some 0) ss) = Opt.os_factor (opts self)
  /\ snd (effective_factors os (Some 0)) = Opt.ss_factor (opts self)
  /\ _build_moments eo ev xija (Some 0) ss = _build_moments eo ev xija None ss
  /\ _build_moments eo ev xija os (Some 0) = _build_moments eo ev xija os None.
Proof. repeat split. Qed.

(** *** Facts on [solve_dyson] and the Fock loop *)

Lemma default_fock_returns gf fock :
  default_fock gf fock
  = ((if is_some fock then [] else [CallGetFock]),
     Ret (match fock with Some f => f | None => get_fock gf end)).
Proof. now destruct fock. Qed.

Lemma solve_dyson_returns se gf fock :
  solve_dyson se gf fock
  = ((if is_some fock then [] else [CallGetFock]) ++ [CallSolveDyson],
     Ret (eigh (dyson_matrix
                  (match fock with
                   | Some f => f
                   | None => get_fock (obj_or gf (self_gf self))
                   end)
                  (obj_or se (self_se self))))).
Proof. unfold solve_dyson. now destruct fock. Qed.

Lemma dyson_step_returns st :
  let wv := eigh (dyson_matrix (l_fock st) (l_se st)) in
  let mu := fst (binsearch_chempot wv (nact self) nelec) in
  dyson_step st
  = ([CallSolveDyson; CallBinsearchChempot],
     Ret (wv, snd (binsearch_chempot wv (nact self) nelec),
          set_chempot (l_se st) mu,
          Aux.of_arrays (fst wv) (firstn (nact self) (snd wv)) mu)).
Proof.
  intros wv mu. unfold dyson_step. rewrite solve_dyson_returns. simpl.
  fold wv. subst mu. now destruct (binsearch_chempot wv (nact self) nelec).
Qed.


(** *** The entries of the Dyson matrix *)

Lemma nth_map_seq {A} (f : nat -> A) n i d :
  (i < n)%nat -> nth i (map f (seq 0 n)) d = f i.
Proof.
  intros H. rewrite (nth_indep _ d (f 0%nat)) by now rewrite length_map, length_seq.
  rewrite map_nth, seq_nth by exact H. reflexivity.
Qed.

Lemma nth_map_in {A B} (f : A -> B) l i d d' :
  (i < length l)%nat -> nth i (map f l) d' = f (nth i l d).
Proof.
  intros H. rewrite (nth_indep _ d' (f d)) by now rewrite length_map.
  apply map_nth.
Qed.

Lemma hstack_length a b :
  length a = length b -> length (hstack a b) = length a.
Proof.
  intros H. unfold hstack. rewrite length_map, length_combine, <- H.
  apply Nat.min_id.
Qed.

Lemma hstack_row a b i :
  length a = length b -> (i < length a)%nat ->
  nth i (hstack a b) [] = nth i a [] ++ nth i b [].
Proof.
  intros H Hi. unfold hstack.
  rewrite (nth_map_in _ _ ([], [])) by (rewrite length_combine, <- H, Nat.min_id; exact Hi).
  rewrite combine_nth by exact H. reflexivity.
Qed.

Lemma coupling_rows_length se :
  length (Aux.coupling_rows se) = Aux.nphys se.
Proof. unfold Aux.coupling_rows. now rewrite length_map, length_seq. Qed.

Lemma coupling_rows_row se i :
  (i < Aux.nphys se)%nat ->
  nth i (Aux.coupling_rows se) []
  = map (fun p => nth i (Aux.coupling p) 0) (Aux.poles se).
Proof. intros H. unfold Aux.coupling_rows. now rewrite nth_map_seq. Qed.

(** X2. The matrix of line 645, entry by entry: the Fock matrix in the upper left
    block, the coupling of pole [k] in column and (conjugated) row
    [nphys + k], and the pole energies on the diagonal of the lower right
    block. *)
Theorem dyson_matrix_entries (fock : matrix) (se : SelfEnergy) (p0 : Aux.pole) :
  let n := Aux.nphys se in
  let m := Aux.naux se in
  let F := dyson_matrix fock se in
  length fock = n ->
  Forall (fun row => length row = n) fock ->
  length F = (n + m)%nat
  /\ (forall i j, (i < n)%nat -> (j < n)%nat -> entry F i j = entry fock i j)
  /\ (forall i k, (i < n)%nat -> (k < m)%nat ->
        entry F i (n + k) = nth i (Aux.coupling (nth k (Aux.poles se) p0)) 0)
  /\ (forall k j, (k < m)%nat -> (j < n)%nat ->
        entry F (n + k) j
        = conj (nth j (Aux.coupling (nth k (Aux.poles se) p0)) 0))
  /\ (forall k l, (k < m)%nat -> (l < m)%nat ->
        entry F (n + k) (n + l)
        = if Nat.eqb k l then Aux.energy (nth k (Aux.poles se) p0) else 0).
Proof.
  intros n m F Hrows Hcols. subst F. unfold dyson_matrix, np_block.
  set (e := Aux.energies se). set (v := Aux.coupling_rows se).
  assert (He : length e = m) by (subst e; unfold Aux.energies; apply length_map).
  assert (Hv : length v = n) by apply coupling_rows_length.
  assert (Htop : length (hstack fock v) = n).
  { rewrite hstack_length; congruence. }
  assert (Hct : length (conj_transpose (length e) v) = m).
  { unfold conj_transpose. now rewrite length_map, length_seq. }
  assert (Hd : length (np_diag e) = m).
  { unfold np_diag. now rewrite length_map, length_seq. }
  assert (Hbot : length (hstack (conj_transpose (length e) v) (np_diag e)) = m).
  { rewrite hstack_length; congruence. }
  assert (Hrow : forall i, (i < n)%nat -> length (nth i fock []) = n).
  { intros i Hi. rewrite Forall_forall in Hcols. apply Hcols, nth_In.
    now rewrite Hrows. }
  assert (Hup : forall i, (i < n)%nat ->
            nth i (hstack fock v ++ hstack (conj_transpose (length e) v)
                                            (np_diag e)) []
            = nth i fock [] ++ map (fun p => nth i (Aux.coupling p) 0)
                                   (Aux.poles se)).
  { intros i Hi. rewrite app_nth1 by now rewrite Htop.
    rewrite hstack_row by congruence. subst v. now rewrite coupling_rows_row. }
  assert (Hlow : forall k, (k < m)%nat ->
            nth (n + k) (hstack fock v ++ hstack (conj_transpose (length e) v)
                                                  (np_diag e)) []
            = map (fun row => conj (nth k row 0)) v
              ++ map (fun j => if Nat.eqb k j then nth k e 0 else 0)
                     (seq 0 (length e))).
  { intros k Hk. rewrite app_nth2 by (rewrite Htop; lia).
    rewrite Htop. replace (n + k - n)%nat with k by lia.
    rewrite hstack_row by congruence.
    unfold conj_transpose, np_diag. rewrite !nth_map_seq by congruence.
    reflexivity. }
  split; [rewrite length_app; congruence|].
  split; [|split; [|split]].
  - intros i j Hi Hj. unfold entry. rewrite Hup by exact Hi.
    apply app_nth1. now rewrite Hrow.
  - intros i k Hi Hk. unfold entry. rewrite Hup by exact Hi.
    rewrite app_nth2 by (rewrite Hrow by exact Hi; lia).
    rewrite Hrow by exact Hi. replace (n + k - n)%nat with k by lia.
    exact (@nth_map_in _ _ (fun p => nth i (Aux.coupling p) 0)
             (Aux.poles se) k p0 0 Hk).
  - intros k j Hk Hj. unfold entry. rewrite Hlow by exact Hk.
    rewrite app_nth1 by (rewrite length_map; congruence).
    rewrite (nth_map_in _ _ []) by congruence. f_equal.
    subst v. rewrite coupling_rows_row by exact Hj.
    exact (@nth_map_in _ _ (fun p => nth j (Aux.coupling p) 0)
             (Aux.poles se) k p0 0 Hk).
  - intros k l Hk Hl. unfold entry. rewrite Hlow by exact Hk.
    rewrite app_nth2 by (rewrite length_map; lia).
    rewrite length_map, Hv. replace (n + l - n)%nat with l by lia.
    rewrite nth_map_seq by congruence.
    destruct (Nat.eqb k l); [|reflexivity].
    subst e. unfold Aux.energies.
    exact (@nth_map_in _ _ Aux.energy (Aux.poles se) k p0 0 Hk).
Qed.

(** What [fock_loop] does when the option [fock_loop] is off. *)
Lemma fock_loop_disabled gf se fock (project_gf return_fock : bool) :
  Opt.fock_loop (opts self) = false ->
  let gf0 := obj_or gf (self_gf self) in
  let se0 := obj_or se (self_se self) in
  let f := match fock with Some f => f | None => get_fock gf0 end in
  let wv := eigh (dyson_matrix f se0) in
  let mu := fst (binsearch_chempot wv (nact self) nelec) in
  let rows := if project_gf then firstn (nact self) (snd wv) else snd wv in
  fock_loop gf se fock project_gf return_fock
  = ((if is_some fock then [] else [CallGetFock])
       ++ [CallSolveDyson; CallBinsearchChempot],
     Ret (Return3 (set_chempot (Aux.of_arrays (fst wv) rows (Aux.chempot se0)) mu)
                  (set_chempot se0 mu) true)).
Proof.
  intros Hoff gf0 se0 f wv mu rows. unfold fock_loop.
  rewrite default_fock_returns, Hoff. fold gf0 se0. simpl negb. cbv iota.
  unfold bind at 1. fold f.
  rewrite solve_dyson_returns. simpl. fold wv. subst rows mu.
  destruct fock, project_gf; reflexivity.
Qed.



(** *** No [LinAlgError] out of the DIIS steps *)

Lemma never_lift_DIIS (h : diis) (x : matrix) :
  never_LinAlgError (lift (snd (DIIS_update lib_diis_fock h x))).
Proof. apply DIIS_update_not_LinAlgError. Qed.

Lemma never_dyson_step st : never_LinAlgError (dyson_step st).
Proof.
  unfold never_LinAlgError. pose proof (dyson_step_returns st) as E.
  simpl in E. rewrite E. discriminate.
Qed.

Lemma never_fock_cycle st : never_LinAlgError (fock_cycle st).
Proof.
  unfold fock_cycle. apply never_bind; [apply never_dyson_step|].
  intros [[[wv nerr] se] gf].
  apply never_bind; [apply never_tell|]. intros _.
  apply never_bind.
  { destruct (truthy (Opt.fock_damping (opts self))); [|apply never_ret].
    apply never_bind; [apply never_tell|]. intros _. apply never_ret. }
  intros fock.
  apply never_bind; [apply never_tell|]. intros _.
  apply never_bind; [apply never_tell|]. intros _.
  pose proof (never_lift_DIIS (l_diis st) fock) as Hd.
  destruct (DIIS_update lib_diis_fock (l_diis st) fock) as [d' r].
  apply never_bind; [exact Hd|]. intros fock'. apply never_ret.
Qed.

Lemma never_inner_loop niter2s : forall st, never_LinAlgError (inner_loop niter2s st).
Proof.
  induction niter2s as [|n rest IH]; intros st; cbn [inner_loop];
    [apply never_ret|].
  apply never_bind; [apply never_fock_cycle|]. intros st'.
  apply never_bind; [apply never_read_local|]. intros derr.
  destruct (Qltb _ _); [apply never_ret | apply IH].
Qed.

Lemma never_outer_cycle st : never_LinAlgError (outer_cycle st).
Proof.
  unfold outer_cycle. apply never_bind; [apply never_tell|]. intros _.
  apply never_inner_loop.
Qed.

Lemma never_converged_test st : never_LinAlgError (converged_test st).
Proof.
  unfold converged_test. apply never_bind; [apply never_read_local|].
  intros derr. destruct (Qltb _ _); [|apply never_ret].
  apply never_bind; [apply never_read_local|]. intros nerr. apply never_ret.
Qed.

Lemma never_outer_loop niter1s : forall st, never_LinAlgError (outer_loop niter1s st).
Proof.
  induction niter1s as [|n rest IH]; intros st; cbn [outer_loop];
    [apply never_ret|].
  apply never_bind; [apply never_outer_cycle|]. intros st'.
  apply never_bind; [apply never_converged_test|]. intros c.
  destruct c; [apply never_ret | apply IH].
Qed.

Lemma never_fock_loop gf se fock project_gf return_fock :
  never_LinAlgError (fock_loop gf se fock project_gf return_fock).
Proof.
  unfold fock_loop. apply never_bind.
  { rewrite default_fock_returns. discriminate. }
  intros f. destruct (negb (Opt.fock_loop (opts self))).
  - apply never_bind.
    { rewrite solve_dyson_returns. discriminate. }
    intros wv. apply never_bind; [apply never_tell|]. intros _. apply never_ret.
  - apply never_bind; [apply never_outer_loop|]. intros [st c].
    apply never_bind; [|intros; apply never_ret].
    destruct project_gf; [apply never_ret|].
    apply never_bind; [apply never_read_local|]. intros wv. apply never_ret.
Qed.

Lemma run_diis_never_LinAlgError se gf d se_prev :
  snd (run_diis se gf d se_prev) <> Raise LinAlgError.
Proof.
  unfold run_diis.
  match goal with
  | |- context [DIIS_update lib_diis_moments d ?t] =>
      pose proof (DIIS_update_not_LinAlgError lib_diis_moments d t) as Hd;
      destruct (DIIS_update lib_diis_moments d t) as [d' [t'|e]]
  end; simpl in *; [discriminate|].
  intros E. apply Hd. inversion E. reflexivity.
Qed.

(** C9. [DIIS.update] never ends in a [LinAlgError]: when the extrapolation
    of the library raises one, [update] returns its argument [x]; hence
    neither the Fock loop nor [run_diis] of the outer driver ends in a
    [LinAlgError]. *)
Theorem DIIS_update_absorbs_LinAlgError :
  (forall (history vec : Type)
          (lib : history -> vec -> history * outcome vec) h x,
      snd (DIIS_update lib h x) <> Raise LinAlgError
      /\ (snd (lib h x) = Raise LinAlgError -> snd (DIIS_update lib h x) = Ret x))
  /\ (forall gf se fock project_gf return_fock,
      result_of (fock_loop gf se fock project_gf return_fock) <> Raise LinAlgError)
  /\ (forall se gf d se_prev,
      snd (run_diis se gf d se_prev) <> Raise LinAlgError).
Proof.
  split; [|split].
  - intros history vec lib h x. split.
    + apply DIIS_update_not_LinAlgError.
    + apply DIIS_update_caught.
  - intros. apply never_fock_loop.
  - intros. apply run_diis_never_LinAlgError.
Qed.

(** *** The Fock loop without inner cycles *)

(** C3, at an inner budget of zero. With the option [fock_loop] on, at least
    one outer cycle and no inner cycle ([max_cycle_inner <= 0]), the first
    outer cycle reads [derr] (line 729) before any pass of the inner loop has
    bound it: [fock_loop] ends in an [UnboundLocalError] and returns
    nothing. *)
Theorem fock_loop_unbound_derr gf se fock project_gf return_fock :
  Opt.fock_loop (opts self) = true ->
  (1 <= Opt.max_cycle_outer (opts self))%Z ->
  (Opt.max_cycle_inner (opts self) <= 0)%Z ->
  result_of (fock_loop gf se fock project_gf return_fock)
  = Raise UnboundLocalError.
Proof.
  intros Hon Houter Hinner. unfold fock_loop.
  rewrite result_bind, default_fock_returns, Hon. simpl.
  rewrite (@py_range_cons 1 (Opt.max_cycle_outer (opts self) + 1)) by lia.
  cbn [outer_loop]. unfold outer_cycle.
  rewrite (@py_range_nil 1 (Opt.max_cycle_inner (opts self) + 1)) by lia.
  reflexivity.
Qed.

(** *** The Fock loop with at least one inner cycle *)







(** *** The Fock loop without outer cycles *)

(** X4. With the option [fock_loop] on and no outer cycle
    ([max_cycle_outer <= 0]) the loop of line 696 is not entered.  Under
    [project_gf] the call returns the Green's function and the self-energy
    it was given (or the attributes of the solver), with the flag [False],
    after at most the Fock build at entry; without [project_gf] line 734
    reads [w], which no pass has bound, and the call ends in an
    [UnboundLocalError]. *)
Theorem fock_loop_no_outer_cycle gf se fock (return_fock : bool) :
  Opt.fock_loop (opts self) = true ->
  (Opt.max_cycle_outer (opts self) <= 0)%Z ->
  let gf0 := obj_or gf (self_gf self) in
  let se0 := obj_or se (self_se self) in
  let f := match fock with Some f => f | None => get_fock gf0 end in
  fock_loop gf se fock true return_fock
  = ((if is_some fock then [] else [CallGetFock]),
     Ret (if return_fock then Return4 gf0 se0 false f
          else Return3 gf0 se0 false))
  /\ result_of (fock_loop gf se fock false return_fock)
     = Raise UnboundLocalError.
Proof.
  intros Hon Houter gf0 se0 f. unfold fock_loop.
  rewrite default_fock_returns, Hon. fold gf0 se0. simpl negb. cbv iota.
  rewrite py_range_nil by lia. fold f.
  split.
  - destruct fock, return_fock; reflexivity.
  - destruct fock; reflexivity.
Qed.

(** *** The calls of the Fock loop *)














(** *** The chemical potential a Fock loop hands back *)

(** The Green's function and the self-energy of the locals carry the same
    chemical potential, and the poles of the Green's function are in
    ascending energy. *)
Definition agree (st : locals) : Prop :=
  Aux.chempot (l_gf st) = Aux.chempot (l_se st)
  /\ StronglySorted Aux.le_energy (Aux.poles (l_gf st)).

Lemma fock_cycle_agree st st' :
  result_of (fock_cycle st) = Ret st' -> agree st'.
Proof.
  unfold fock_cycle.
  pose proof (dyson_step_returns st) as E. simpl in E. rewrite E. clear E.
  destruct (truthy (Opt.fock_damping (opts self)));
    cbn [bind tell ret log_of fst snd app];
    match goal with
    | |- context [DIIS_update lib_diis_fock ?h ?x] =>
        destruct (DIIS_update lib_diis_fock h x) as [d' [y|e]]
    end; simpl; intros H; inversion H;
    (split; [reflexivity | apply Aux.argsort_sorted]).
Qed.

Lemma inner_loop_agree niter2s : forall st st',
  result_of (inner_loop niter2s st) = Ret st' ->
  niter2s <> [] \/ agree st -> agree st'.
Proof.
  induction niter2s as [|k rest IH]; intros st st'; cbn [inner_loop].
  - simpl. intros H. inversion H. subst st'. intros [F|A]; [congruence | exact A].
  - rewrite result_bind.
    destruct (result_of (fock_cycle st)) as [st1|e] eqn:E1; [|discriminate].
    apply fock_cycle_agree in E1. rewrite result_bind.
    destruct (l_derr st1) as [derr|];
      cbn [read_local ret raise result_of snd]; [|discriminate].
    destruct (Qltb _ _).
    + simpl. intros H _. inversion H. subst st'. exact E1.
    + intros H _. apply (IH st1 st' H). now right.
Qed.

Lemma outer_loop_agree niter1s :
  py_range 1 (Opt.max_cycle_inner (opts self) + 1) <> [] ->
  forall st st' c,
    result_of (outer_loop niter1s st) = Ret (st', c) ->
    niter1s <> [] \/ agree st -> agree st'.
Proof.
  intros Hinner.
  induction niter1s as [|k rest IH]; intros st st' c; cbn [outer_loop].
  - simpl. intros H. inversion H. subst st'. intros [F|A]; [congruence | exact A].
  - rewrite result_bind.
    destruct (result_of (outer_cycle st)) as [st1|e] eqn:E1; [|discriminate].
    assert (A1 : agree st1).
    { unfold outer_cycle in E1. rewrite result_bind in E1.
      cbn [tell result_of snd] in E1.
      eapply inner_loop_agree; [exact E1 | now left]. }
    rewrite result_bind.
    destruct (result_of (converged_test st1)) as [[|]|e]; [| |discriminate].
    + simpl. intros H _. inversion H. subst st'. exact A1.
    + intros H _. apply (IH st1 st' c H). now right.
Qed.

Lemma outer_loop_unbound niter1s st :
  py_range 1 (Opt.max_cycle_inner (opts self) + 1) = [] ->
  niter1s <> [] -> l_derr st = None ->
  result_of (outer_loop niter1s st) = Raise UnboundLocalError.
Proof.
  intros Hinner Hne Hd. destruct niter1s as [|k rest]; [congruence|].
  cbn [outer_loop]. unfold outer_cycle. rewrite Hinner.
  cbn [inner_loop]. unfold converged_test. simpl. rewrite Hd. reflexivity.
Qed.

Lemma fock_loop_agree gf se fock project_gf return_fock r :
  (Opt.fock_loop (opts self) = true ->
   (1 <= Opt.max_cycle_outer (opts self))%Z) ->
  result_of (fock_loop gf se fock project_gf return_fock) = Ret r ->
  Aux.chempot (returned_gf r) = Aux.chempot (returned_se r)
  /\ StronglySorted Aux.le_energy (Aux.poles (returned_gf r)).
Proof.
  intros Houter. destruct (Opt.fock_loop (opts self)) eqn:Hon.
  - specialize (Houter eq_refl). unfold fock_loop.
    rewrite result_bind, default_fock_returns, Hon.
    cbn [result_of snd negb]. rewrite result_bind.
    set (niter1s := py_range 1 (Opt.max_cycle_outer (opts self) + 1)).
    assert (Hne : niter1s <> []).
    { subst niter1s. rewrite py_range_cons by lia. discriminate. }
    destruct (py_range 1 (Opt.max_cycle_inner (opts self) + 1)) eqn:Hinner.
    + rewrite outer_loop_unbound by (assumption || reflexivity). discriminate.
    + match goal with
      | |- context [outer_loop niter1s ?s] =>
          destruct (result_of (outer_loop niter1s s)) as [[st c]|e] eqn:E;
            [|discriminate]
      end.
      assert (A : agree st).
      { eapply outer_loop_agree; [|exact E | now left].
        rewrite Hinner. discriminate. }
      rewrite result_bind. destruct project_gf.
      * simpl. destruct return_fock; intros H; inversion H; exact A.
      * rewrite result_bind.
        destruct (l_wv st) as [wv|]; cbn [read_local ret raise result_of snd];
          [|discriminate].
        destruct return_fock; intros H; inversion H;
          (split; [reflexivity | apply Aux.argsort_sorted]).
  - intros H.
    rewrite (fock_loop_disabled gf se fock project_gf return_fock Hon) in H.
    simpl in H. inversion H.
    split; [reflexivity | destruct project_gf; apply Aux.argsort_sorted].
Qed.

(** X6. Whenever [fock_loop] returns after the single Dyson solve of the
    disabled path, or after at least one outer cycle, the Green's function and
    the self-energy it returns carry the same chemical potential, and the
    poles of the Green's function are in ascending energy. *)
Theorem fock_loop_shares_chempot gf se fock project_gf return_fock r :
  (Opt.fock_loop (opts self) = true ->
   (1 <= Opt.max_cycle_outer (opts self))%Z) ->
  result_of (fock_loop gf se fock project_gf return_fock) = Ret r ->
  Aux.chempot (returned_gf r) = Aux.chempot (returned_se r)
  /\ StronglySorted Aux.le_energy (Aux.poles (returned_gf r)).
Proof. apply fock_loop_agree. Qed.

(** *** What [run_diis] hands back *)

Lemma _build_se_from_moments_chempot t mu :
  Aux.chempot (_build_se_from_moments t mu) = mu.
Proof.
  unfold _build_se_from_moments.
  destruct (if (Opt.nmom_lanczos (opts self) =? 0)%Z
            then poles_by_eigh t else poles_by_lanczos t) as [e v].
  reflexivity.
Qed.

Lemma run_diis_facts se gf d se_prev se' :
  Opt.nmom_projection (opts self) = None ->
  snd (run_diis se gf d se_prev) = Ret se' ->
  Aux.chempot se' = Aux.chempot se
  /\ StronglySorted Aux.le_energy (Aux.poles se').
Proof.
  intros Hn. unfold run_diis.
  match goal with
  | |- context [DIIS_update lib_diis_moments d ?t] =>
      destruct (DIIS_update lib_diis_moments d t) as [d' [y|e]]
  end; simpl; [|discriminate].
  intros H. inversion H. split.
  - now rewrite _combine_se_chempot, _build_se_from_moments_chempot.
  - now apply _combine_se_sorted.
Qed.


End Solver.

(** ** The outer drivers ([RAGF2.kernel], [EAGF2.kernel]) *)

(** What a driver leaves behind: the attributes of the solver, the flag it
    returns, and the [deltas] of every iteration it ran, in order (the three
    changes each iteration reports). *)
Record attributes : Type := {
  a_gf : GreensFunction;
  a_se : SelfEnergy;
  e_1b : Q;
  e_2b : Q
}.

Definition e_tot (a : attributes) : Q := e_1b a + e_2b a.

Record run : Type := {
  final : attributes;
  converged : bool;
  checks : list (Z * (Q * Q * Q))
}.

Definition logged (c : Z * (Q * Q * Q)) (r : run) : run :=
  {| final := final r; converged := converged r; checks := c :: checks r |}.

Section Drivers.

Variable options : Opt.RAGF2Options.

(** The steps of one iteration, each with the value it returns. *)
Variable diis : Type.
Variable new_diis : Z -> Z -> diis.
Variable build_init_greens_function : GreensFunction.
Variable build_self_energy : GreensFunction -> SelfEnergy.
(** [self.fock_loop(gf=gf, se=se)]. *)
Variable fock_loop_step :
  GreensFunction -> SelfEnergy -> GreensFunction * SelfEnergy * bool.
(** [self.run_diis(se, gf, diis, se_prev=se_prev)]. *)
Variable run_diis_step :
  SelfEnergy -> option GreensFunction -> diis -> option SelfEnergy ->
  diis * SelfEnergy.
Variable energy_1body : GreensFunction -> Q.
Variable energy_2body : GreensFunction -> SelfEnergy -> Q.
(** [self.mf.e_tot]. *)
Variable mf_e_tot : Q.
(** [numpy.linalg.norm(t_n - t_n_prev)] for the [n]-th moments of [se] and
    [se_prev] (zero moments when [se_prev] is [None]). *)
Variable moment_change : nat -> SelfEnergy -> option SelfEnergy -> Q.

(** [_convergence_checks]: the changes in energy and in the two moments. *)
Definition _convergence_checks (a : attributes) (se : option SelfEnergy)
    (se_prev : option SelfEnergy) (e_prev : option Q) : Q * Q * Q :=
  let se := obj_or se (a_se a) in
  let e_prev := float_or e_prev mf_e_tot in
  (Qabs (e_tot a - e_prev), moment_change 0 se se_prev, moment_change 1 se se_prev).

(** The test of lines 1263-1265 (and 330-332 of [eagf2.py]). *)
Definition within_tolerances (deltas : Q * Q * Q) : bool :=
  let '(d0, d1, d2) := deltas in
  Qltb d0 (Opt.conv_tol options)
  && below d1 (Opt.conv_tol_t0 options)
  && below d2 (Opt.conv_tol_t1 options).

(** *** [RAGF2.kernel] *)

(** Lines 1234-1249: the work of one iteration. *)
Definition iteration (a : attributes) (d : diis) : attributes * diis * (Q * Q * Q) :=
  let se_prev := a_se a in
  let e_prev := e_tot a in
  let '(gf, se, _) := fock_loop_step (a_gf a) (a_se a) in
  let e1 := energy_1body gf in
  let se := build_self_energy gf in
  let (d, se) := run_diis_step se (Some gf) d (Some se_prev) in
  let e2 := energy_2body gf se in
  let a := {| a_gf := gf; a_se := se; e_1b := e1; e_2b := e2 |} in
  (a, d, _convergence_checks a (Some se) (Some se_prev) (Some e_prev)).

(** Lines 1228-1273: the loop over [niter], with the latch [converged_prev]. *)
Fixpoint kernel_loop (niters : list Z) (a : attributes) (d : diis)
    (converged_prev : bool) : run :=
  match niters with
  | [] => {| final := a; converged := false; checks := [] |}
  | niter :: rest =>
      let '(a, d, deltas) := iteration a d in
      if within_tolerances deltas then
        if Opt.extra_cycle options && negb converged_prev then
          logged (niter, deltas) (kernel_loop rest a d true)
        else
          {| final := a; converged := true; checks := [(niter, deltas)] |}
      else
        if Opt.extra_cycle options && converged_prev then
          logged (niter, deltas) (kernel_loop rest a d false)
        else
          logged (niter, deltas) (kernel_loop rest a d converged_prev)
  end.

(** Lines 1203-1213: the Green's function and self-energy the run starts
    from, built when the attribute is still [None]. *)
Definition initialise (gf se : option GreensFunction) (e1 e2 : Q) : attributes :=
  let gf := match gf with Some g => g | None => build_init_greens_function end in
  let se := match se with Some s => s | None => build_self_energy gf end in
  {| a_gf := gf; a_se := se; e_1b := e1; e_2b := e2 |}.

Definition kernel_adc (gf se : option GreensFunction) (e1 e2 : Q) : run :=
  let a := initialise gf se e1 e2 in
  let '(gf, se, _) := fock_loop_step (a_gf a) (a_se a) in
  {| final := {| a_gf := gf; a_se := se; e_1b := e_1b a; e_2b := e_2b a |};
     converged := true; checks := [] |}.

(** [RAGF2.kernel], called on a solver whose attributes [gf], [se], [e_1b]
    and [e_2b] are the arguments. *)
Definition RAGF2_kernel (gf se : option GreensFunction) (e1 e2 : Q) : run :=
  if Opt.as_adc options then kernel_adc gf se e1 e2
  else
    let a := initialise gf se e1 e2 in
    let d := new_diis (Opt.diis_space options) (Opt.diis_min_space options) in
    kernel_loop (py_range 1 (Opt.max_cycle options + 1)) a d false.

(** *** [EAGF2.kernel] *)

(** Lines 266-301: the self-energy summed over the fragments, from the
    current self-energy and Fock matrix. *)
Variable fragment_self_energy : SelfEnergy -> matrix -> SelfEnergy.
(** Lines 306-308: the Dyson step and the Fock loop on [fock_mo]. *)
Variable dyson_fock_step :
  SelfEnergy -> matrix -> GreensFunction * SelfEnergy * bool * matrix.

(** The attributes of the inner solver; [solver.gf] is [None] until the first
    iteration sets it. *)
Record eagf2_state : Type := {
  s_gf : option GreensFunction;
  s_se : SelfEnergy;
  s_e_1b : Q;
  s_e_2b : Q;
  s_fock : matrix;
  s_diis : diis
}.

Record eagf2_run : Type := {
  at_end : eagf2_state;
  flag : bool;
  reports : list (Z * (Q * Q * Q))
}.

Definition reported (c : Z * (Q * Q * Q)) (r : eagf2_run) : eagf2_run :=
  {| at_end := at_end r; flag := flag r; reports := c :: reports r |}.

(** Lines 263-328: the work of iteration [niter]. *)
Definition eagf2_iteration (fock_mo : matrix) (niter : Z) (s : eagf2_state)
    : eagf2_state * (Q * Q * Q) :=
  let se_prev := s_se s in
  let e_prev := s_e_1b s + s_e_2b s in
  let se := fragment_self_energy (s_se s) (s_fock s) in
  let d := if (niter =? 0)%Z then s_diis s
           else fst (run_diis_step se None (s_diis s) (Some se_prev)) in
  let '(gf, se, _, fock) := dyson_fock_step se fock_mo in
  let gf := Aux.remove_uncoupled 1e-12 gf in
  let e1 := energy_1body gf in
  let e2 := energy_2body gf se in
  let a := {| a_gf := gf; a_se := se; e_1b := e1; e_2b := e2 |} in
  ({| s_gf := Some gf; s_se := se; s_e_1b := e1; s_e_2b := e2;
      s_fock := fock; s_diis := d |},
   _convergence_checks a (Some se) (Some se_prev) (Some e_prev)).

(** Lines 257-334: the loop over [niter]. *)
Fixpoint eagf2_loop (fock_mo : matrix) (niters : list Z) (s : eagf2_state)
    : eagf2_run :=
  match niters with
  | [] => {| at_end := s; flag := false; reports := [] |}
  | niter :: rest =>
      let (s, deltas) := eagf2_iteration fock_mo niter s in
      if within_tolerances deltas
      then {| at_end := s; flag := true; reports := [(niter, deltas)] |}
      else reported (niter, deltas) (eagf2_loop fock_mo rest s)
  end.

(** [EAGF2.kernel] for [nfrag] fragments, from the diagonal Fock matrix
    [fock_mo] and the empty self-energy of [nact] rows. *)
Definition EAGF2_kernel (nfrag nact : nat) (fock_mo : matrix) : outcome run :=
  if Nat.eqb nfrag 0 then
    Raise (ValueError "No fragments defined for calculation.")
  else
    let d := new_diis (Opt.diis_space options) (Opt.diis_min_space options) in
    let s := {| s_gf := None; s_se := Aux.of_arrays [] (repeat [] nact) 0;
                s_e_1b := mf_e_tot; s_e_2b := 0;
                s_fock := fock_mo; s_diis := d |} in
    let r := eagf2_loop fock_mo (py_range 0 (Opt.max_cycle options + 1)) s in
    match s_gf (at_end r) with
    | None => Raise AttributeError
    | Some gf =>
        let gf := Aux.remove_uncoupled 1e-12 gf in
        Ret {| final := {| a_gf := gf; a_se := s_se (at_end r);
                           e_1b := energy_1body gf;
                           e_2b := energy_2body gf (s_se (at_end r)) |};
               converged := flag r; checks := reports r |}
    end.

(** *** How many iterations a driver runs *)








(** *** The latch of the extra cycle *)

(** The iterations a run reports are the first values of [niter]. *)
Lemma kernel_loop_iterations niters : forall a d latch,
  exists rest,
    niters = map fst (checks (kernel_loop niters a d latch)) ++ rest.
Proof.
  induction niters as [|n rest IH]; intros a d latch; cbn [kernel_loop].
  - now exists [].
  - destruct (iteration a d) as [[a' d'] deltas].
    destruct (within_tolerances deltas);
      destruct (Opt.extra_cycle options); destruct latch; simpl;
      try (now exists rest);
      try (destruct (IH a' d' true) as [r E]; exists r; now rewrite <- E);
      destruct (IH a' d' false) as [r E]; exists r; now rewrite <- E.
Qed.

Lemma kernel_loop_latch niters : forall a d latch,
  Opt.extra_cycle options = true ->
  converged (kernel_loop niters a d latch) = true ->
  (exists earlier c1 c2,
      checks (kernel_loop niters a d latch) = earlier ++ [c1; c2]
      /\ within_tolerances (snd c1) = true
      /\ within_tolerances (snd c2) = true)
  \/ (latch = true
      /\ exists c, checks (kernel_loop niters a d latch) = [c]
                   /\ within_tolerances (snd c) = true).
Proof.
  induction niters as [|n rest IH]; intros a d latch Hx; cbn [kernel_loop];
    [discriminate|].
  destruct (iteration a d) as [[a' d'] deltas]. rewrite Hx.
  destruct (within_tolerances deltas) eqn:Hpass; destruct latch; simpl.
  - intros _. right. split; [reflexivity|]. now exists (n, deltas).
  - intros Hc. left.
    destruct (IH a' d' true Hx Hc)
      as [(earlier & c1 & c2 & E & P1 & P2) | (_ & c & E & P)].
    + exists ((n, deltas) :: earlier), c1, c2. rewrite E. auto.
    + exists [], (n, deltas), c. rewrite E. auto.
  - intros Hc. left.
    destruct (IH a' d' false Hx Hc)
      as [(earlier & c1 & c2 & E & P1 & P2) | (F & _)]; [|discriminate].
    exists ((n, deltas) :: earlier), c1, c2. rewrite E. auto.
  - intros Hc. left.
    destruct (IH a' d' false Hx Hc)
      as [(earlier & c1 & c2 & E & P1 & P2) | (F & _)]; [|discriminate].
    exists ((n, deltas) :: earlier), c1, c2. rewrite E. auto.
Qed.

(** C2, amended. With [extra_cycle] on and [as_adc] off, [RAGF2.kernel]
    returns the flag [True] only when its last two iterations, numbered
    [niter] and [niter + 1], both had the three changes within their
    tolerances. *)
Theorem extra_cycle_needs_two_passes gf se e1 e2 :
  Opt.extra_cycle options = true ->
  Opt.as_adc options = false ->
  converged (RAGF2_kernel gf se e1 e2) = true ->
  exists earlier c1 c2,
    checks (RAGF2_kernel gf se e1 e2) = earlier ++ [c1; c2]
    /\ fst c2 = (fst c1 + 1)%Z
    /\ within_tolerances (snd c1) = true
    /\ within_tolerances (snd c2) = true.
Proof.
  intros Hx Hadc. unfold RAGF2_kernel. rewrite Hadc. intros Hc.
  destruct (kernel_loop_latch _ _ _ _ Hx Hc)
    as [(earlier & c1 & c2 & E & P1 & P2) | (F & _)]; [|discriminate].
  exists earlier, c1, c2. repeat split; try assumption.
  match type of E with
  | checks (kernel_loop ?l ?a ?d ?b) = _ =>
      destruct (kernel_loop_iterations l a d b) as [rest Hn]
  end.
  rewrite E, map_app, <- app_assoc in Hn. simpl in Hn.
  eapply py_range_adjacent. exact Hn.
Qed.

(** *** A run that converged passed its last test *)

Lemma kernel_loop_last_passes niters : forall a d latch,
  converged (kernel_loop niters a d latch) = true ->
  exists earlier c,
    checks (kernel_loop niters a d latch) = earlier ++ [c]
    /\ within_tolerances (snd c) = true.
Proof.
  induction niters as [|n rest IH]; intros a d latch; cbn [kernel_loop];
    [discriminate|].
  destruct (iteration a d) as [[a' d'] deltas].
  destruct (within_tolerances deltas) eqn:P;
    destruct (Opt.extra_cycle options); destruct latch; simpl; intros Hc;
    try (now exists [], (n, deltas));
    match goal with
    | |- context [kernel_loop rest a' d' ?b] =>
        destruct (IH a' d' b Hc) as (earlier & c & E & Pc);
        exists ((n, deltas) :: earlier), c; rewrite E; auto
    end.
Qed.

Lemma eagf2_loop_last_passes fock_mo niters : forall s,
  flag (eagf2_loop fock_mo niters s) = true ->
  exists earlier c,
    reports (eagf2_loop fock_mo niters s) = earlier ++ [c]
    /\ within_tolerances (snd c) = true
    /\ Forall (fun c' => within_tolerances (snd c') = false) earlier.
Proof.
  induction niters as [|n rest IH]; intros s; cbn [eagf2_loop]; [discriminate|].
  destruct (eagf2_iteration fock_mo n s) as [s' deltas].
  destruct (within_tolerances deltas) eqn:P; simpl; intros Hc.
  - exists [], (n, deltas). auto.
  - destruct (IH s' Hc) as (earlier & c & E & Pc & Fe).
    exists ((n, deltas) :: earlier), c. rewrite E. auto.
Qed.

(** X3. A driver that returns the flag [True] ran at least one iteration
    (unless [as_adc] is set) and its last iteration had the three changes
    within their tolerances; in [EAGF2.kernel] no earlier iteration had. *)
Theorem converged_run_passed_last_test :
  (forall gf se e1 e2,
      Opt.as_adc options = false ->
      converged (RAGF2_kernel gf se e1 e2) = true ->
      exists earlier c,
        checks (RAGF2_kernel gf se e1 e2) = earlier ++ [c]
        /\ within_tolerances (snd c) = true)
  /\ (forall nfrag nact fock_mo r,
      EAGF2_kernel nfrag nact fock_mo = Ret r ->
      converged r = true ->
      exists earlier c,
        checks r = earlier ++ [c]
        /\ within_tolerances (snd c) = true
        /\ Forall (fun c' => within_tolerances (snd c') = false) earlier).
Proof.
  split.
  - intros gf se e1 e2 Hadc. unfold RAGF2_kernel. rewrite Hadc.
    apply kernel_loop_last_passes.
  - intros nfrag nact fock_mo r. unfold EAGF2_kernel.
    destruct (Nat.eqb nfrag 0); [discriminate|].
    match goal with
    | |- context [eagf2_loop ?f ?l ?s] =>
        pose proof (@eagf2_loop_last_passes f l s) as H;
        destruct (s_gf (at_end (eagf2_loop f l s))); [|discriminate]
    end.
    intros E. injection E as <-. simpl. exact H.
Qed.

(** *** A driver that runs no iteration *)


(** *** A run that did not converge *)

Lemma kernel_loop_unconverged niters : forall a d latch,
  converged (kernel_loop niters a d latch) = false ->
  (Opt.extra_cycle options = false ->
   Forall (fun c => within_tolerances (snd c) = false)
          (checks (kernel_loop niters a d latch)))
  /\ (latch = true ->
      forall c cs, checks (kernel_loop niters a d latch) = c :: cs ->
                   within_tolerances (snd c) = false)
  /\ (forall l1 c1 c2 l2,
        checks (kernel_loop niters a d latch) = l1 ++ c1 :: c2 :: l2 ->
        within_tolerances (snd c1) = true ->
        within_tolerances (snd c2) = false).
Proof.
  induction niters as [|n rest IH]; intros a d latch; cbn [kernel_loop].
  - intros _. split; [constructor|]. split.
    + intros _ c cs H. discriminate H.
    + intros [|x l1] c1 c2 l2 H; discriminate H.
  - destruct (iteration a d) as [[a' d'] deltas].
    destruct (within_tolerances deltas) eqn:P.
    + destruct (Opt.extra_cycle options && negb latch)%bool eqn:B;
        [|simpl; discriminate].
      apply andb_true_iff in B. destruct B as [X L].
      apply negb_true_iff in L.
      cbn [logged converged checks final]. intros Hc.
      destruct (IH a' d' true Hc) as (_ & Hfirst & Hadj).
      split; [congruence|]. split; [congruence|].
      intros [|x l1] c1 c2 l2 H; simpl in H.
      * inversion H as [[E1 E2]]. intros _.
        apply (Hfirst eq_refl c2 l2). exact E2.
      * inversion H as [[E1 E2]]. apply (Hadj l1 c1 c2 l2). exact E2.
    + assert (Hstep : forall b,
                converged (kernel_loop rest a' d' b) = false ->
                (Opt.extra_cycle options = false ->
                 Forall (fun c => within_tolerances (snd c) = false)
                        ((n, deltas) :: checks (kernel_loop rest a' d' b)))
                /\ (latch = true ->
                    forall c cs,
                      (n, deltas) :: checks (kernel_loop rest a' d' b) = c :: cs ->
                      within_tolerances (snd c) = false)
                /\ (forall l1 c1 c2 l2,
                      (n, deltas) :: checks (kernel_loop rest a' d' b)
                      = l1 ++ c1 :: c2 :: l2 ->
                      within_tolerances (snd c1) = true ->
                      within_tolerances (snd c2) = false)).
      { intros b Hc. destruct (IH a' d' b Hc) as (Hall & _ & Hadj).
        split; [intros X; constructor; [exact P | exact (Hall X)]|].
        split.
        - intros _ c cs H. inversion H. exact P.
        - intros [|x l1] c1 c2 l2 H; simpl in H.
          + inversion H as [[E1 E2]]. simpl. congruence.
          + inversion H as [[E1 E2]]. apply (Hadj l1 c1 c2 l2). exact E2. }
      destruct (Opt.extra_cycle options && latch)%bool;
        cbn [logged converged checks final]; apply Hstep.
Qed.

Lemma eagf2_loop_unconverged fock_mo niters : forall s,
  flag (eagf2_loop fock_mo niters s) = false ->
  Forall (fun c => within_tolerances (snd c) = false)
         (reports (eagf2_loop fock_mo niters s)).
Proof.
  induction niters as [|n rest IH]; intros s; cbn [eagf2_loop];
    [constructor|].
  destruct (eagf2_iteration fock_mo n s) as [s' deltas].
  destruct (within_tolerances deltas) eqn:P; simpl; [discriminate|].
  intros H. constructor; [exact P | now apply IH].
Qed.

(** X9. A driver that returns the flag [False] did not miss a convergence:
    in the run of [RAGF2.kernel] no two consecutive iterations had the three
    changes within their tolerances, and with [extra_cycle] off no iteration
    had; in the run of [EAGF2.kernel] no iteration had. *)
Theorem unconverged_run_never_passed :
  (forall gf se e1 e2,
      Opt.as_adc options = false ->
      converged (RAGF2_kernel gf se e1 e2) = false ->
      (Opt.extra_cycle options = false ->
       Forall (fun c => within_tolerances (snd c) = false)
              (checks (RAGF2_kernel gf se e1 e2)))
      /\ (forall l1 c1 c2 l2,
            checks (RAGF2_kernel gf se e1 e2) = l1 ++ c1 :: c2 :: l2 ->
            within_tolerances (snd c1) = true ->
            within_tolerances (snd c2) = false))
  /\ (forall nfrag nact fock_mo r,
      EAGF2_kernel nfrag nact fock_mo = Ret r ->
      converged r = false ->
      Forall (fun c => within_tolerances (snd c) = false) (checks r)).
Proof.
  split.
  - intros gf se e1 e2 Hadc. unfold RAGF2_kernel. rewrite Hadc. intros Hc.
    destruct (kernel_loop_unconverged _ _ _ _ Hc) as (Hall & _ & Hadj).
    split; assumption.
  - intros nfrag nact fock_mo r. unfold EAGF2_kernel.
    destruct (Nat.eqb nfrag 0); [discriminate|].
    match goal with
    | |- context [eagf2_loop ?f ?l ?s] =>
        pose proof (@eagf2_loop_unconverged f l s) as H;
        destruct (s_gf (at_end (eagf2_loop f l s))); [|discriminate]
    end.
    intros E. injection E as <-. simpl. exact H.
Qed.

(** *** A tolerance that no energy change meets *)





(** *** What [EAGF2.kernel] reports *)

(** Lines 251-254: the attributes of the inner solver before the first
    iteration. *)
Definition eagf2_start (nact : nat) (fock_mo : matrix) : eagf2_state :=
  {| s_gf := None; s_se := Aux.of_arrays [] (repeat [] nact) 0;
     s_e_1b := mf_e_tot; s_e_2b := 0; s_fock := fock_mo;
     s_diis := new_diis (Opt.diis_space options) (Opt.diis_min_space options) |}.

(** After an iteration the Green's function of the solver is pruned at
    [1e-12] and the two energies are those of this Green's function. *)
Definition settled (s : eagf2_state) : Prop :=
  match s_gf s with
  | Some gf => Aux.pruned 1e-12 gf
               /\ s_e_1b s = energy_1body gf
               /\ s_e_2b s = energy_2body gf (s_se s)
  | None => True
  end.

Lemma eagf2_iteration_settled fock_mo n s :
  settled (fst (eagf2_iteration fock_mo n s)).
Proof.
  unfold eagf2_iteration, settled.
  destruct (dyson_fock_step _ _) as [[[gf se] c] fock]. simpl.
  split; [apply Aux.remove_uncoupled_pruned | split; reflexivity].
Qed.

Lemma eagf2_loop_settled fock_mo niters : forall s,
  settled s -> settled (at_end (eagf2_loop fock_mo niters s)).
Proof.
  induction niters as [|n rest IH]; intros s Hs; cbn [eagf2_loop];
    [exact Hs|].
  pose proof (eagf2_iteration_settled fock_mo n s) as H1.
  destruct (eagf2_iteration fock_mo n s) as [s' deltas]. simpl in H1.
  destruct (within_tolerances deltas); simpl; [exact H1 | now apply IH].
Qed.

(** X11. The lines after the loop of [EAGF2.kernel] (336-338) change nothing:
    the Green's function, the self-energy and the two energies of the results
    are the attributes the solver had at the end of the last iteration, and
    the Green's function has no pole of weight below [1e-12]. *)
Theorem EAGF2_results_of_last_iteration nfrag nact fock_mo r :
  EAGF2_kernel nfrag nact fock_mo = Ret r ->
  let s := at_end (eagf2_loop fock_mo
                     (py_range 0 (Opt.max_cycle options + 1))
                     (eagf2_start nact fock_mo)) in
  s_gf s = Some (a_gf (final r))
  /\ s_se s = a_se (final r)
  /\ s_e_1b s = e_1b (final r)
  /\ s_e_2b s = e_2b (final r)
  /\ Aux.pruned 1e-12 (a_gf (final r)).
Proof.
  unfold EAGF2_kernel. destruct (Nat.eqb nfrag 0); [discriminate|].
  fold (eagf2_start nact fock_mo).
  pose proof (@eagf2_loop_settled fock_mo
                (py_range 0 (Opt.max_cycle options + 1))
                (eagf2_start nact fock_mo) I) as Hs.
  set (s := at_end (eagf2_loop _ _ _)) in *.
  unfold settled in Hs.
  destruct (s_gf s) as [gf|] eqn:Eg; [|discriminate].
  destruct Hs as (Hp & H1 & H2).
  intros E. injection E as <-. cbv zeta.
  cbn [final a_gf a_se e_1b e_2b].
  rewrite (Aux.pruned_fixed Hp). auto.
Qed.

End Drivers.

(** *** What the drivers do not read *)

Section Unread.

Variable options : Opt.RAGF2Options.
Variable diis : Type.
Variable new_diis : Z -> Z -> diis.
Variable build_init_greens_function : GreensFunction.
Variable build_self_energy : GreensFunction -> SelfEnergy.
Variable fock_loop_step :
  GreensFunction -> SelfEnergy -> GreensFunction * SelfEnergy * bool.
Variable run_diis_step :
  SelfEnergy -> option GreensFunction -> diis -> option SelfEnergy ->
  diis * SelfEnergy.
Variable energy_1body : GreensFunction -> Q.
Variable energy_2body : GreensFunction -> SelfEnergy -> Q.
Variable mf_e_tot : Q.
Variable moment_change : nat -> SelfEnergy -> option SelfEnergy -> Q.
Variable fragment_self_energy : SelfEnergy -> matrix -> SelfEnergy.
Variable dyson_fock_step :
  SelfEnergy -> matrix -> GreensFunction * SelfEnergy * bool * matrix.

(** A Fock loop that returns the same Green's function and self-energy, with
    another flag. *)
Definition with_flag (fconv : GreensFunction -> SelfEnergy -> bool)
    (gf : GreensFunction) (se : SelfEnergy)
    : GreensFunction * SelfEnergy * bool :=
  let '(g, s, _) := fock_loop_step gf se in (g, s, fconv gf se).

Definition with_flag4 (fconv : SelfEnergy -> matrix -> bool)
    (se : SelfEnergy) (fock : matrix)
    : GreensFunction * SelfEnergy * bool * matrix :=
  let '(g, s, _, f) := dyson_fock_step se fock in (g, s, fconv se fock, f).

(** A [run_diis] that updates the DIIS object in the same way and returns
    another self-energy. *)
Definition with_self_energy
    (other : SelfEnergy -> option GreensFunction -> diis -> option SelfEnergy ->
             SelfEnergy)
    (se : SelfEnergy) (gf : option GreensFunction) (d : diis)
    (se_prev : option SelfEnergy) : diis * SelfEnergy :=
  (fst (run_diis_step se gf d se_prev), other se gf d se_prev).

Lemma kernel_loop_with_flag fconv niters : forall a d latch,
  kernel_loop options build_self_energy (with_flag fconv) run_diis_step
    energy_1body energy_2body mf_e_tot moment_change niters a d latch
  = kernel_loop options build_self_energy fock_loop_step run_diis_step
      energy_1body energy_2body mf_e_tot moment_change niters a d latch.
Proof.
  induction niters as [|n rest IH]; intros a d latch; cbn [kernel_loop];
    [reflexivity|].
  assert (E : iteration build_self_energy (with_flag fconv) run_diis_step
                energy_1body energy_2body mf_e_tot moment_change a d
              = iteration build_self_energy fock_loop_step run_diis_step
                  energy_1body energy_2body mf_e_tot moment_change a d).
  { unfold iteration, with_flag.
    destruct (fock_loop_step (a_gf a) (a_se a)) as [[g s] c]. reflexivity. }
  rewrite E. clear E.
  destruct (iteration build_self_energy fock_loop_step run_diis_step
              energy_1body energy_2body mf_e_tot moment_change a d)
    as [[a' d'] deltas].
  now rewrite !IH.
Qed.

Lemma eagf2_loop_with_flag fconv fock_mo niters : forall s,
  eagf2_loop options run_diis_step energy_1body energy_2body mf_e_tot
    moment_change fragment_self_energy (with_flag4 fconv) fock_mo niters s
  = eagf2_loop options run_diis_step energy_1body energy_2body mf_e_tot
      moment_change fragment_self_energy dyson_fock_step fock_mo niters s.
Proof.
  induction niters as [|n rest IH]; intros s; cbn [eagf2_loop];
    [reflexivity|].
  assert (E : eagf2_iteration run_diis_step energy_1body energy_2body mf_e_tot
                moment_change fragment_self_energy (with_flag4 fconv)
                fock_mo n s
              = eagf2_iteration run_diis_step energy_1body energy_2body
                  mf_e_tot moment_change fragment_self_energy dyson_fock_step
                  fock_mo n s).
  { unfold eagf2_iteration, with_flag4.
    destruct (dyson_fock_step _ _) as [[[g se] c] f]. reflexivity. }
  rewrite E. clear E.
  destruct (eagf2_iteration run_diis_step energy_1body energy_2body mf_e_tot
              moment_change fragment_self_energy dyson_fock_step fock_mo n s)
    as [s' deltas].
  now rewrite IH.
Qed.

(** X12. Neither driver reads the flag of the Fock loop: a Fock loop that
    returns the same Green's function and self-energy with any other flag
    gives the same run of [RAGF2.kernel] (under [as_adc] too) and of
    [EAGF2.kernel], with the same flag [converged]. *)
Theorem drivers_ignore_fock_loop_flag :
  (forall fconv gf se e1 e2,
      RAGF2_kernel options new_diis build_init_greens_function
        build_self_energy (with_flag fconv) run_diis_step energy_1body
        energy_2body mf_e_tot moment_change gf se e1 e2
      = RAGF2_kernel options new_diis build_init_greens_function
          build_self_energy fock_loop_step run_diis_step energy_1body
          energy_2body mf_e_tot moment_change gf se e1 e2)
  /\ (forall fconv nfrag nact fock_mo,
      EAGF2_kernel options new_diis run_diis_step energy_1body energy_2body
        mf_e_tot moment_change fragment_self_energy (with_flag4 fconv)
        nfrag nact fock_mo
      = EAGF2_kernel options new_diis run_diis_step energy_1body energy_2body
          mf_e_tot moment_change fragment_self_energy dyson_fock_step
          nfrag nact fock_mo).
Proof.
  split.
  - intros fconv gf se e1 e2. unfold RAGF2_kernel.
    destruct (Opt.as_adc options).
    + unfold kernel_adc, with_flag.
      destruct (fock_loop_step _ _) as [[g s] c]. reflexivity.
    + apply kernel_loop_with_flag.
  - intros fconv nfrag nact fock_mo. unfold EAGF2_kernel.
    now rewrite eagf2_loop_with_flag.
Qed.

Lemma eagf2_loop_with_self_energy other fock_mo niters : forall s,
  eagf2_loop options (with_self_energy other) energy_1body energy_2body
    mf_e_tot moment_change fragment_self_energy dyson_fock_step
    fock_mo niters s
  = eagf2_loop options run_diis_step energy_1body energy_2body mf_e_tot
      moment_change fragment_self_energy dyson_fock_step fock_mo niters s.
Proof.
  induction niters as [|n rest IH]; intros s; cbn [eagf2_loop];
    [reflexivity|].
  assert (E : eagf2_iteration (with_self_energy other) energy_1body
                energy_2body mf_e_tot moment_change fragment_self_energy
                dyson_fock_step fock_mo n s
              = eagf2_iteration run_diis_step energy_1body energy_2body
                  mf_e_tot moment_change fragment_self_energy dyson_fock_step
                  fock_mo n s) by reflexivity.
  rewrite E. clear E.
  destruct (eagf2_iteration run_diis_step energy_1body energy_2body mf_e_tot
              moment_change fragment_self_energy dyson_fock_step fock_mo n s)
    as [s' deltas].
  now rewrite IH.
Qed.

(** X13. [EAGF2.kernel] drops the self-energy that [run_diis] returns (line
    304): the Dyson step of each iteration works on the self-energy of
    [_combine_se], and a [run_diis] that updates the DIIS object in the same
    way and returns any other self-energy gives the same results. *)
Theorem EAGF2_kernel_drops_run_diis_result other nfrag nact fock_mo :
  EAGF2_kernel options new_diis (with_self_energy other) energy_1body
    energy_2body mf_e_tot moment_change fragment_self_energy dyson_fock_step
    nfrag nact fock_mo
  = EAGF2_kernel options new_diis run_diis_step energy_1body energy_2body
      mf_e_tot moment_change fragment_self_energy dyson_fock_step
      nfrag nact fock_mo.
Proof. unfold EAGF2_kernel. now rewrite eagf2_loop_with_self_energy. Qed.

End Unread.

(** ** A two-orbital model *)

(** One occupied orbital at energy [-1], one virtual at [+1], with the
    numerical collaborators fixed to simple exact ones, to run the
    definitions above on concrete input. *)
Module Model.

Definition fock0 : matrix := [[-1; 0]; [0; 1]].

(** Diagonal entries and unit eigenvectors: [eigh] of a diagonal matrix. *)
Definition eigh (m : matrix) : list Q * matrix :=
  (map (fun i => nth i (nth i m []) 0) (seq 0 (length m)),
   map (fun i => map (fun j => if Nat.eqb i j then 1 else 0) (seq 0 (length m)))
       (seq 0 (length m))).

Definition get_fock (gf : GreensFunction) : matrix := fock0.
Definition make_rdm1 (gf : GreensFunction) : matrix := [[2; 0]; [0; 0]].
Definition binsearch_chempot (wv : list Q * matrix) (nact : nat) (nelec : Z)
    : Q * Q := (0, 0).
Definition minimize_chempot (se : SelfEnergy) (fock : matrix) (nelec : Z)
    (x0 tol : Q) (maxiter : Z) : SelfEnergy := se.
Definition max_abs_change (a b : matrix) : Q :=
  fold_right (fun x acc => if Qle_bool acc x then x else acc) 0
    (map (fun xy => Qabs (fst xy - snd xy))
         (List.combine (List.concat a) (List.concat b))).
Definition compress (n : Z) (fock : matrix) (se : SelfEnergy) : SelfEnergy := se.
Definition moments_of (k : Z) (a : Aux.AuxiliarySpace) : list matrix := [].
Definition no_poles (t : list matrix) : list Q * matrix := ([], [[]; []]).

(** A DIIS that returns its input, and one whose subspace is singular. *)
Definition new_diis (space min_space : Z) : unit := tt.
Definition diis_identity {X} (h : unit) (x : X) : unit * outcome X := (h, Ret x).
Definition diis_singular {X} (h : unit) (x : X) : unit * outcome X :=
  (h, Raise LinAlgError).

(** The mean-field Green's function and an empty self-energy. *)
Definition g0 : GreensFunction := Aux.of_arrays [-1; 1] [[1; 0]; [0; 1]] 0.
Definition se0 : SelfEnergy := Aux.of_arrays [] [[]; []] 0.

Definition solver_with (o : Opt.RAGF2Options) : solver :=
  {| opts := o; nact := 2; nocc := 1; frozen := (0, 0)%Z;
     self_gf := g0; self_se := se0 |}.

(** The defaults, with three of the Fock-loop options set. *)
Definition options_with (fock_loop : bool) (max_cycle_outer max_cycle_inner : Z)
    : Opt.RAGF2Options :=
  Opt.override Opt.defaults false fock_loop max_cycle_outer max_cycle_inner.

(** The defaults, with [as_adc] set. *)
Definition options_adc : Opt.RAGF2Options :=
  Opt.override Opt.defaults true true 20 50.

(** The Fock loop of a solver on the model, as [EAGF2.kernel] calls it:
    [solver.fock_loop(fock=fock_mo, return_fock=True)]. *)
Definition fock_loop_of (self : solver) (fock : option matrix)
    : M fock_loop_return :=
  fock_loop eigh get_fock make_rdm1 binsearch_chempot minimize_chempot
    max_abs_change new_diis diis_identity self None None fock true true.

Definition fock_loop (o : Opt.RAGF2Options)
    (gf : option GreensFunction) (se : option SelfEnergy)
    (fock : option matrix) (project_gf return_fock : bool) : M fock_loop_return :=
  fock_loop eigh get_fock make_rdm1 binsearch_chempot minimize_chempot
    max_abs_change new_diis diis_identity (solver_with o)
    gf se fock project_gf return_fock.

Definition _combine_se (se_occ se_vir : SelfEnergy) : SelfEnergy :=
  _combine_se get_fock compress (solver_with Opt.defaults) se_occ se_vir None.

Definition run_diis (o : Opt.RAGF2Options) (se : SelfEnergy)
    (gf : option GreensFunction) (d : unit) (se_prev : option SelfEnergy)
    : unit * outcome SelfEnergy :=
  run_diis get_fock compress moments_of no_poles no_poles diis_identity
    (solver_with o) se gf d se_prev.

(** The steps of the outer drivers, with the values the Fock loop and
    [run_diis] above return (they raise nothing in the runs below; a step
    that raised would leave its input).  The correlation energy [-1/4]
    appears with the first self-energy and stays. *)
Definition fock_loop_step (o : Opt.RAGF2Options) (gf : GreensFunction)
    (se : SelfEnergy) : GreensFunction * SelfEnergy * bool :=
  match result_of (fock_loop o (Some gf) (Some se) None true false) with
  | Ret r => (returned_gf r, returned_se r, returned_converged r)
  | Raise _ => (gf, se, false)
  end.

Definition run_diis_step (o : Opt.RAGF2Options) (se : SelfEnergy)
    (gf : option GreensFunction) (d : unit) (se_prev : option SelfEnergy)
    : unit * SelfEnergy :=
  match run_diis o se gf d se_prev with
  | (d, Ret se') => (d, se')
  | (d, Raise _) => (d, se)
  end.

(** Lines 306-308 of [eagf2.py]: the Dyson step on [fock_mo], then the Fock
    loop of a solver holding the new Green's function. *)
Definition dyson_fock_step (o : Opt.RAGF2Options) (se : SelfEnergy)
    (fock_mo : matrix) : GreensFunction * SelfEnergy * bool * matrix :=
  let wv := eigh (dyson_matrix fock_mo se) in
  let gf := Aux.of_arrays (fst wv) (firstn 2 (snd wv)) 0 in
  let self := {| opts := o; nact := 2; nocc := 1; frozen := (0, 0)%Z;
                 self_gf := gf; self_se := se |} in
  match result_of (fock_loop_of self (Some fock_mo)) with
  | Ret (Return4 g s c f) => (g, s, c, f)
  | _ => (gf, se, false, fock_mo)
  end.

Definition build_self_energy (gf : GreensFunction) : SelfEnergy := se0.
Definition energy_1body (gf : GreensFunction) : Q := -1.
Definition energy_2body (gf : GreensFunction) (se : SelfEnergy) : Q := - (1 # 4).
Definition moment_change (n : nat) (se : SelfEnergy) (se_prev : option SelfEnergy)
    : Q := 0.
Definition fragment_self_energy (se : SelfEnergy) (fock : matrix) : SelfEnergy := se0.

Definition RAGF2_kernel (o : Opt.RAGF2Options) : run :=
  RAGF2_kernel o new_diis g0 build_self_energy (fock_loop_step o)
    (run_diis_step o) energy_1body energy_2body (-1) moment_change
    None None (-1) 0.

Definition EAGF2_kernel (o : Opt.RAGF2Options) (nfrag : nat) : outcome run :=
  EAGF2_kernel o new_diis (run_diis_step o) energy_1body energy_2body (-1)
    moment_change fragment_self_energy (dyson_fock_step o) nfrag 2 fock0.

End Model.

(** ** Runs of the two-orbital model *)



(** Under [extra_cycle = True]: in [EAGF2.kernel] the first iteration fails
    the test, the second passes, and the run ends there with the flag [True];
    in [RAGF2.kernel] under [as_adc] the flag is [True] with no iteration at
    all. *)
Lemma single_pass_converges :
  Opt.extra_cycle Opt.defaults = true
  /\ (exists r,
        Model.EAGF2_kernel Opt.defaults 1 = Ret r
        /\ converged r = true
        /\ map (fun c => within_tolerances Opt.defaults (snd c)) (checks r)
           = [false; true])
  /\ Opt.extra_cycle Model.options_adc = true
  /\ converged (Model.RAGF2_kernel Model.options_adc) = true
  /\ checks (Model.RAGF2_kernel Model.options_adc) = [].
Proof.
  split; [reflexivity|]. split; [|split; [reflexivity|]].
  - vm_compute. eexists. repeat split.
  - vm_compute. split; reflexivity.
Qed.

Lemma extra_cycle_needs_two_passes_witness :
  converged (Model.RAGF2_kernel Opt.defaults) = true
  /\ exists earlier c1 c2,
      checks (Model.RAGF2_kernel Opt.defaults) = earlier ++ [c1; c2]
      /\ fst c2 = (fst c1 + 1)%Z
      /\ within_tolerances Opt.defaults (snd c1) = true
      /\ within_tolerances Opt.defaults (snd c2) = true.
Proof.
  split; [vm_compute; reflexivity|].
  apply (@extra_cycle_needs_two_passes Opt.defaults unit Model.new_diis
           Model.g0 Model.build_self_energy
           (Model.fock_loop_step Opt.defaults)
           (Model.run_diis_step Opt.defaults) Model.energy_1body
           Model.energy_2body (-1) Model.moment_change None None (-1) 0);
    [reflexivity | reflexivity | vm_compute; reflexivity].
Defined.

Lemma fock_loop_unbound_derr_witness :
  result_of (Model.fock_loop (Model.options_with true 20 0)
               None None None true false)
  = Raise UnboundLocalError.
Proof.
  unfold Model.fock_loop. apply fock_loop_unbound_derr;
    [reflexivity | discriminate | discriminate].
Defined.

(** A pole of zero weight in the occupied self-energy does not come back
    from combining and splitting. *)
Lemma combine_split_drops_uncoupled :
  let se_occ := Aux.MkAux 1 [Aux.Pole (-1) [0]] 0 in
  let se_vir := Aux.MkAux 1 [Aux.Pole 1 [1]] 0 in
  let se := Model._combine_se se_occ se_vir in
  Opt.nmom_projection Opt.defaults = None
  /\ Forall (fun p => Aux.energy p < Aux.chempot se_occ) (Aux.poles se_occ)
  /\ Forall (fun p => Aux.chempot se_occ <= Aux.energy p) (Aux.poles se_vir)
  /\ Aux.poles (Aux.get_occupied se) = []
  /\ ~ (forall p, In p (Aux.poles se_occ) ->
                  In p (Aux.poles (Aux.get_occupied se))).
Proof.
  cbv zeta. split; [reflexivity|]. split.
  { constructor; [reflexivity | constructor]. }
  split.
  { constructor; [discriminate | constructor]. }
  split; [reflexivity|].
  intros H. specialize (H (Aux.Pole (-1) [0]) (or_introl eq_refl)).
  vm_compute in H. exact H.
Qed.

Lemma combine_split_roundtrip_witness :
  let se_occ := Aux.MkAux 2 [Aux.Pole (-2) [1; 0]; Aux.Pole (-1) [0; 1]] 0 in
  let se_vir := Aux.MkAux 2 [Aux.Pole 1 [1; 1]] 0 in
  let se := Model._combine_se se_occ se_vir in
  Permutation (Aux.poles (Aux.get_occupied se)) (Aux.poles se_occ)
  /\ Permutation (Aux.poles (Aux.get_virtual se)) (Aux.poles se_vir).
Proof.
  cbv zeta. unfold Model._combine_se. apply combine_split_roundtrip.
  - reflexivity.
  - constructor; [reflexivity|]. constructor; [reflexivity | constructor].
  - constructor; [reflexivity | constructor].
  - constructor; [reflexivity|]. constructor; [reflexivity | constructor].
  - constructor; [discriminate | constructor].
Defined.



Lemma DIIS_update_absorbs_LinAlgError_witness :
  snd (DIIS_update (@Model.diis_singular matrix) tt Model.fock0)
  = Ret Model.fock0.
Proof.
  exact (proj2 (proj1 (@DIIS_update_absorbs_LinAlgError Model.eigh
                         Model.get_fock Model.make_rdm1
                         Model.binsearch_chempot Model.minimize_chempot
                         Model.max_abs_change Model.compress Model.moments_of
                         Model.no_poles Model.no_poles unit Model.new_diis
                         (@Model.diis_identity matrix)
                         (@Model.diis_identity (list matrix * list matrix))
                         (Model.solver_with Opt.defaults))
                      unit matrix (@Model.diis_singular matrix) tt Model.fock0)
               eq_refl).
Defined.


(** The self-energy of one pole at energy [2], coupled to the two orbitals
    with [1/2] and [1/3]: the Dyson matrix is 3 by 3. *)
Lemma dyson_matrix_entries_witness :
  let se := Aux.of_arrays [2] [[1 # 2]; [1 # 3]] 0 in
  length (dyson_matrix Model.fock0 se) = 3%nat
  /\ dyson_matrix Model.fock0 se
     = [[-1; 0; 1 # 2]; [0; 1; 1 # 3]; [1 # 2; 1 # 3; 2]].
Proof.
  cbv zeta. split; [|reflexivity].
  refine (proj1 (@dyson_matrix_entries Model.fock0
                   (Aux.of_arrays [2] [[1 # 2]; [1 # 3]] 0)
                   (Aux.Pole 0 []) eq_refl _)).
  constructor; [reflexivity|]. constructor; [reflexivity | constructor].
Defined.

Lemma converged_run_passed_last_test_witness :
  exists earlier c,
    checks (Model.RAGF2_kernel Opt.defaults) = earlier ++ [c]
    /\ within_tolerances Opt.defaults (snd c) = true.
Proof.
  apply (proj1 (@converged_run_passed_last_test Opt.defaults unit
                  Model.new_diis Model.g0 Model.build_self_energy
                  (Model.fock_loop_step Opt.defaults)
                  (Model.run_diis_step Opt.defaults) Model.energy_1body
                  Model.energy_2body (-1) Model.moment_change
                  Model.fragment_self_energy
                  (Model.dyson_fock_step Opt.defaults))
               None None (-1) 0);
    [reflexivity | vm_compute; reflexivity].
Defined.

(** * Orbital spaces, the mean-field Green's function and the energies *)

(** ** More of Python and numpy *)

(** Two exceptions by name. *)
Definition IndexError : exn := OtherError "IndexError".
Definition TypeError : exn := OtherError "TypeError".

(** Steps that may raise, one after the other. *)
Definition and_then {A B} (r : outcome A) (f : A -> outcome B) : outcome B :=
  match r with
  | Ret a => f a
  | Raise e => Raise e
  end.

Notation "x <~ r ;; k" := (and_then r (fun x => k))
  (at level 61, r at next level, right associativity).

(** [slice(start, stop)]; [None] is an open end. *)
Record slice : Type := Slice { start : option Z; stop : option Z }.

(** An end of a slice on a sequence of [len] items: a negative index counts
    from the back, and the result is clipped to [0 .. len]. *)
Definition slice_bound (len : Z) (i : option Z) (open : Z) : Z :=
  match i with
  | None => open
  | Some i => if (i <? 0)%Z then Z.max (len + i) 0 else Z.min i len
  end.

(** [x[s]] for a list or a one-dimensional array [x]. *)
Definition getslice {A} (s : slice) (x : list A) : list A :=
  let len := Z.of_nat (length x) in
  let lo := slice_bound len (start s) 0 in
  let hi := slice_bound len (stop s) len in
  firstn (Z.to_nat (hi - lo)) (skipn (Z.to_nat lo) x).

(** [x[mask]] for a boolean array [mask]: the entries of [x] where [mask]
    holds; numpy refuses a mask of another length. *)
Definition mask_select {A} (mask : list bool) (x : list A) : outcome (list A) :=
  if Nat.eqb (length mask) (length x)
  then Ret (map snd (filter fst (List.combine mask x)))
  else Raise IndexError.

(** [a.max()] and [a.min()]: numpy refuses an empty array. *)
Definition fmax (x y : Q) : Q := if Qltb x y then y else x.
Definition fmin (x y : Q) : Q := if Qltb y x then y else x.

Definition np_max (a : list Q) : outcome Q :=
  match a with
  | [] => Raise (ValueError
            "zero-size array to reduction operation maximum which has no identity")
  | x :: a' => Ret (fold_left fmax a' x)
  end.

Definition np_min (a : list Q) : outcome Q :=
  match a with
  | [] => Raise (ValueError
            "zero-size array to reduction operation minimum which has no identity")
  | x :: a' => Ret (fold_left fmin a' x)
  end.

(** [numpy.eye(n)]. *)
Definition np_eye (n : Z) : outcome matrix :=
  if (n <? 0)%Z then Raise (ValueError "negative dimensions are not allowed")
  else Ret (map (fun i => map (fun j => if Nat.eqb i j then 1 else 0)
                              (seq 0 (Z.to_nat n)))
                (seq 0 (Z.to_nat n))).

(** [numpy.sum] of a one-dimensional and of a two-dimensional array. *)
Definition Qsum (a : list Q) : Q := fold_right Qplus 0 a.
Definition np_sum (m : matrix) : Q := Qsum (map Qsum m).

(** [numpy.dot(a, b.T)] for two matrices given by rows: entry [(i, j)] is
    the product of row [i] of [a] with row [j] of [b]. *)
Definition dot (u v : list Q) : Q :=
  Qsum (map (fun p => fst p * snd p) (List.combine u v)).
Definition dot_T (a b : matrix) : matrix :=
  map (fun ra => map (fun rb => dot ra rb) b) a.

(** *** Facts on slices *)

Lemma getslice_head {A} (x : list A) (n : Z) :
  (0 <= n <= Z.of_nat (length x))%Z ->
  getslice (Slice None (Some n)) x = firstn (Z.to_nat n) x.
Proof.
  intros H. unfold getslice, slice_bound. simpl.
  destruct (Z.ltb_spec n 0); [lia|].
  rewrite Z.min_l by lia. f_equal. lia.
Qed.

Lemma getslice_tail {A} (x : list A) (n : Z) :
  (0 <= n <= Z.of_nat (length x))%Z ->
  getslice (Slice (Some n) None) x = skipn (Z.to_nat n) x.
Proof.
  intros H. unfold getslice, slice_bound. simpl.
  destruct (Z.ltb_spec n 0); [lia|].
  rewrite Z.min_l by lia.
  apply firstn_all2. rewrite length_skipn. lia.
Qed.

Lemma getslice_middle {A} (x : list A) (a b : Z) :
  (0 <= a <= b)%Z -> (b <= Z.of_nat (length x))%Z ->
  getslice (Slice (Some a) (Some b)) x
  = firstn (Z.to_nat (b - a)) (skipn (Z.to_nat a) x).
Proof.
  intros H1 H2. unfold getslice, slice_bound. simpl.
  destruct (Z.ltb_spec a 0); [lia|]. destruct (Z.ltb_spec b 0); [lia|].
  now rewrite !Z.min_l by lia.
Qed.

Lemma three_parts {A} (x : list A) (a b : nat) :
  (a <= b)%nat ->
  firstn a x ++ firstn (b - a) (skipn a x) ++ skipn b x = x.
Proof.
  intros H. rewrite <- (firstn_skipn a x) at 4. f_equal.
  rewrite <- (firstn_skipn (b - a) (skipn a x)) at 2. f_equal.
  rewrite skipn_skipn. f_equal. lia.
Qed.

(** ** The active space ([_active_slices]) *)

(** Lines 96-104: the slices of the frozen occupied, the frozen virtual and
    the active orbitals among [nmo] orbitals, for the pair [frozen]. *)
Definition _active_slices (nmo : Z) (frozen : Z * Z) : slice * slice * slice :=
  let focc := Slice None (Some (fst frozen)) in
  let fvir := Slice (Some (nmo - snd frozen)%Z) None in
  let act := Slice (Some (fst frozen)) (Some (nmo - snd frozen)%Z) in
  (focc, fvir, act).

Lemma active_slice_length {A} (x : list A) (f0 f1 : Z) :
  (0 <= f0)%Z -> (0 <= f1)%Z -> (f0 + f1 <= Z.of_nat (length x))%Z ->
  length (getslice (snd (_active_slices (Z.of_nat (length x)) (f0, f1))) x)
  = Z.to_nat (Z.of_nat (length x) - (f0 + f1))%Z.
Proof.
  intros H0 H1 H. simpl. rewrite getslice_middle by lia.
  rewrite length_firstn, length_skipn. lia.
Qed.

(** X14. For [frozen = (f0, f1)] with [f0, f1 >= 0] and [f0 + f1 <= nmo],
    the three slices of [_active_slices] cut an array of [nmo] entries into
    the first [f0] entries, the next [nmo - f0 - f1] and the last [f1]:
    nothing is lost and nothing is taken twice. *)
Theorem active_slices_partition (A : Type) (x : list A) (f0 f1 : Z) :
  (0 <= f0)%Z -> (0 <= f1)%Z -> (f0 + f1 <= Z.of_nat (length x))%Z ->
  let '(focc, fvir, act) := _active_slices (Z.of_nat (length x)) (f0, f1) in
  getslice focc x ++ getslice act x ++ getslice fvir x = x
  /\ length (getslice focc x) = Z.to_nat f0
  /\ length (getslice act x) = Z.to_nat (Z.of_nat (length x) - (f0 + f1))%Z
  /\ length (getslice fvir x) = Z.to_nat f1.
Proof.
  intros H0 H1 H. simpl.
  rewrite getslice_head, getslice_tail, getslice_middle by lia.
  split.
  - replace (Z.to_nat (Z.of_nat (length x) - f1 - f0)%Z)
      with (Z.to_nat (Z.of_nat (length x) - f1)%Z - Z.to_nat f0)%nat by lia.
    apply three_parts. lia.
  - rewrite !length_firstn, !length_skipn. lia.
Qed.

Lemma active_slices_partition_witness :
  let x := [10; 20; 30; 40; 50]%Z in
  let '(focc, fvir, act) := _active_slices 5 (1, 2)%Z in
  (getslice focc x, getslice act x, getslice fvir x)
  = ([10], [20; 30], [40; 50])%Z
  /\ getslice focc x ++ getslice act x ++ getslice fvir x = x.
Proof.
  split; [reflexivity|].
  refine (proj1 (@active_slices_partition Z [10; 20; 30; 40; 50]%Z 1 2 _ _ _));
    simpl; lia.
Defined.

(** ** The [frozen] property *)

(** The Python values a caller gives for [frozen]: [None], an [int], or a
    tuple. *)
#[warnings="-register-all"]
Inductive pyval : Type :=
| VNone
| VInt (z : Z)
| VTuple (items : list pyval).

(** [a == b]: values of different types are never equal. *)
Fixpoint py_eq (a b : pyval) : bool :=
  match a, b with
  | VNone, VNone => true
  | VInt x, VInt y => (x =? y)%Z
  | VTuple l, VTuple l' =>
      (fix all2 (l l' : list pyval) : bool :=
         match l, l' with
         | [], [] => true
         | x :: l, y :: l' => py_eq x y && all2 l l'
         | _, _ => false
         end) l l'
  | _, _ => false
  end.

Definition isinstance_int (v : pyval) : bool :=
  match v with VInt _ => true | _ => false end.

(** [v[i]] for a constant index [i >= 0]. *)
Definition getitem (v : pyval) (i : nat) : outcome pyval :=
  match v with
  | VTuple l =>
      match nth_error l i with
      | Some x => Ret x
      | None => Raise IndexError
      end
  | _ => Raise TypeError
  end.

(** [a + b]: the sum of two ints, the concatenation of two tuples. *)
Definition py_add (a b : pyval) : outcome pyval :=
  match a, b with
  | VInt x, VInt y => Ret (VInt (x + y))
  | VTuple l, VTuple l' => Ret (VTuple (l ++ l'))
  | _, _ => Raise TypeError
  end.

(** [for x in v]. *)
Definition py_iter (v : pyval) : outcome (list pyval) :=
  match v with
  | VTuple l => Ret l
  | _ => Raise TypeError
  end.

(** The tuple [(0, 0)]. *)
Definition zero_pair : pyval := VTuple [VInt 0; VInt 0].

(** Lines 1389-1396, the setter: the value it stores in [_frozen]. *)
Definition frozen_setter (frozen : pyval) : pyval :=
  if py_eq frozen VNone || py_eq frozen (VInt 0) || py_eq frozen zero_pair
  then zero_pair
  else if isinstance_int frozen then VTuple [frozen; VInt 0]
  else frozen.

(** Line 1388, the getter: [getattr(self, '_frozen', (0, 0))]. *)
Definition frozen_getter (_frozen : option pyval) : pyval :=
  match _frozen with
  | Some v => v
  | None => zero_pair
  end.

(** Line 1419: [nfroz], from the value of [self.frozen]. *)
Definition nfroz (frozen : pyval) : outcome pyval :=
  a <~ getitem frozen 0 ;;
  b <~ getitem frozen 1 ;;
  py_add a b.

(** X15. The setter of [frozen] stores a pair: [(0, 0)] for [None], [(n, 0)]
    for an [int] [n] (the [n] lowest orbitals are frozen, no virtual one), a
    pair of ints as it is; storing what it stored changes nothing; and
    [nfroz] is then [n], respectively the sum of the pair.  Before any
    assignment the getter answers [(0, 0)]. *)
Theorem frozen_setter_normalises :
  frozen_getter None = zero_pair
  /\ frozen_setter VNone = zero_pair
  /\ (forall n, frozen_setter (VInt n) = VTuple [VInt n; VInt 0])
  /\ (forall a b,
        frozen_setter (VTuple [VInt a; VInt b]) = VTuple [VInt a; VInt b])
  /\ (forall v, frozen_setter (frozen_setter v) = frozen_setter v)
  /\ (forall n, nfroz (frozen_setter (VInt n)) = Ret (VInt n))
  /\ (forall a b,
        nfroz (frozen_setter (VTuple [VInt a; VInt b])) = Ret (VInt (a + b))).
Proof.
  assert (Hint : forall n, frozen_setter (VInt n) = VTuple [VInt n; VInt 0]).
  { intros n. unfold frozen_setter. simpl.
    destruct (Z.eqb_spec n 0) as [->|_]; reflexivity. }
  assert (Hpair : forall a b,
            frozen_setter (VTuple [VInt a; VInt b]) = VTuple [VInt a; VInt b]).
  { intros a b. unfold frozen_setter. simpl.
    destruct (Z.eqb_spec a 0) as [->|_]; [|reflexivity].
    destruct (Z.eqb_spec b 0) as [->|_]; reflexivity. }
  split; [reflexivity|]. split; [reflexivity|].
  split; [exact Hint|]. split; [exact Hpair|].
  split; [|split].
  - intros v.
    destruct (py_eq v VNone || py_eq v (VInt 0) || py_eq v zero_pair) eqn:E.
    + assert (Hv : frozen_setter v = zero_pair)
        by (unfold frozen_setter; now rewrite E).
      rewrite Hv. reflexivity.
    + destruct v as [|n|l].
      * discriminate E.
      * rewrite Hint. apply Hpair.
      * assert (Hv : frozen_setter (VTuple l) = VTuple l)
          by (unfold frozen_setter; now rewrite E).
        now rewrite !Hv.
  - intros n. rewrite Hint. unfold nfroz. simpl. do 2 f_equal. lia.
  - intros a b. rewrite Hpair. reflexivity.
Qed.

(** ** The potential of the frozen density ([_get_frozen_veff]) *)

Section FrozenVeff.

(** [self.mf.get_veff(dm=dm)], and the change to the basis of the orbitals:
    [numpy.linalg.multi_dot((mo_coeff.T.conj(), veff, mo_coeff))]. *)
Variable mf_get_veff : matrix -> matrix.
Variable to_mo : matrix -> matrix -> matrix.

(** Line 334: the density of the frozen occupied orbitals. *)
Definition dm_froz (focc : slice) (mo_coeff : matrix) : matrix :=
  let c_focc := map (getslice focc) mo_coeff in
  map (map (fun v => v * 2)) (dot_T c_focc (map (map conj) c_focc)).

(** Lines 325-338: the new value of [self.veff], which the method returns;
    [veff] is the value passed to the constructor. *)
Definition _get_frozen_veff (veff : option matrix) (frozen : pyval)
    (focc : slice) (mo_coeff : matrix) : outcome (option matrix) :=
  match veff with
  | Some _ => Ret veff
  | None =>
      xs <~ py_iter frozen ;;
      if negb (forallb (fun x => py_eq x zero_pair) xs) then
        let veff := mf_get_veff (dm_froz focc mo_coeff) in
        Ret (Some (to_mo mo_coeff veff))
      else Ret None
  end.

Lemma getslice_none {A} (x : list A) :
  getslice (Slice None (Some 0%Z)) x = [].
Proof.
  unfold getslice, slice_bound. simpl.
  rewrite Z.min_l by lia. reflexivity.
Qed.

Lemma dm_froz_zero mo_coeff :
  dm_froz (Slice None (Some 0%Z)) mo_coeff
  = map (fun _ => map (fun _ => 0) mo_coeff) mo_coeff.
Proof.
  unfold dm_froz, dot_T. rewrite !map_map.
  apply map_ext. intros row. rewrite !map_map.
  apply map_ext. intros row'. now rewrite !getslice_none.
Qed.

(** X16. The test of line 331 compares each entry of [frozen], an int, with
    the tuple [(0, 0)], so it never holds: when no [veff] is passed to the
    constructor, the potential of the frozen density is computed by the
    mean-field object for every pair [frozen], also for [(0, 0)], where the
    density handed over is the zero matrix; a [veff] that is passed is kept
    as it is. *)
Theorem frozen_veff_always_computed (mo_coeff : matrix) :
  (forall a b focc,
      _get_frozen_veff None (VTuple [VInt a; VInt b]) focc mo_coeff
      = Ret (Some (to_mo mo_coeff (mf_get_veff (dm_froz focc mo_coeff)))))
  /\ (let frozen := frozen_setter zero_pair in
      let focc := fst (fst (_active_slices (Z.of_nat (length mo_coeff)) (0, 0)%Z)) in
      _get_frozen_veff None frozen focc mo_coeff
      = Ret (Some (to_mo mo_coeff
                     (mf_get_veff
                        (map (fun _ => map (fun _ => 0) mo_coeff) mo_coeff)))))
  /\ (forall v frozen focc,
      _get_frozen_veff (Some v) frozen focc mo_coeff = Ret (Some v)).
Proof.
  split; [|split].
  - intros a b focc. reflexivity.
  - cbv zeta. change (frozen_setter zero_pair) with zero_pair.
    simpl fst. unfold _get_frozen_veff. simpl.
    now rewrite dm_froz_zero.
  - reflexivity.
Qed.

End FrozenVeff.

(** ** The mean-field Green's function ([build_init_greens_function]) *)

(** Lines 613-629, for the attributes [mo_energy], [mo_occ] and [frozen] of
    the solver; [self.act] and [self.nact] are those of the constructor, for
    [nmo = mo_energy.size].  The container sorts its poles by energy, which
    reads one column of [v] for each entry of [e]. *)
Definition build_init_greens_function (mo_energy mo_occ : list Q)
    (frozen : Z * Z) : outcome GreensFunction :=
  occ <~ mask_select (map (fun o => Qltb 0 o) mo_occ) mo_energy ;;
  homo <~ np_max occ ;;
  vir <~ mask_select (map (fun o => Qeq_bool o 0) mo_occ) mo_energy ;;
  lumo <~ np_min vir ;;
  let chempot := 0.5 * (homo + lumo) in
  let nmo := Z.of_nat (length mo_energy) in
  let act := snd (_active_slices nmo frozen) in
  let nact := (nmo - (fst frozen + snd frozen))%Z in
  let e := getslice act mo_energy in
  v <~ np_eye nact ;;
  if (Z.of_nat (length e) <=? nact)%Z
  then Ret (Aux.of_arrays e v chempot)
  else Raise IndexError.

(** *** Facts on masks and extrema *)

Lemma mask_select_map {A B} (f : B -> bool) (bs : list B) (xs : list A) :
  length bs = length xs ->
  mask_select (map f bs) xs
  = Ret (map fst (filter (fun p => f (snd p)) (List.combine xs bs))).
Proof.
  intros H. unfold mask_select. rewrite length_map, H, Nat.eqb_refl.
  f_equal. revert xs H.
  induction bs as [|b bs IH]; intros [|x xs] H; try discriminate H;
    [reflexivity|].
  simpl. destruct (f b); simpl; rewrite IH by (simpl in H; lia); reflexivity.
Qed.

Lemma mask_select_mismatch {A} (mask : list bool) (xs : list A) :
  length mask <> length xs -> mask_select mask xs = Raise IndexError.
Proof.
  intros H. unfold mask_select.
  destruct (Nat.eqb_spec (length mask) (length xs)); [contradiction|reflexivity].
Qed.

Lemma fmax_cases x y : (fmax x y = x \/ fmax x y = y) /\ x <= fmax x y /\ y <= fmax x y.
Proof.
  unfold fmax. destruct (Qltb x y) eqn:E.
  - apply Qltb_lt in E. repeat split; auto; [now apply Qlt_le_weak | apply Qle_refl].
  - apply Qltb_ge in E. repeat split; auto. apply Qle_refl.
Qed.

Lemma fmin_cases x y : (fmin x y = x \/ fmin x y = y) /\ fmin x y <= x /\ fmin x y <= y.
Proof.
  unfold fmin. destruct (Qltb y x) eqn:E.
  - apply Qltb_lt in E. repeat split; auto; [now apply Qlt_le_weak | apply Qle_refl].
  - apply Qltb_ge in E. repeat split; auto. apply Qle_refl.
Qed.

Lemma fold_fmax l : forall x,
  let m := fold_left fmax l x in
  (m = x \/ In m l) /\ x <= m /\ Forall (fun y => y <= m) l.
Proof.
  induction l as [|y l IH]; intros x; simpl.
  - repeat split; auto. apply Qle_refl.
  - destruct (IH (fmax x y)) as (Hin & Hle & Hall).
    destruct (fmax_cases x y) as (Hc & Hx & Hy).
    split; [|split].
    + destruct Hin as [E|I]; [|auto]. rewrite E.
      destruct Hc as [->| ->]; auto.
    + now apply Qle_trans with (fmax x y).
    + constructor; [|exact Hall]. now apply Qle_trans with (fmax x y).
Qed.

Lemma fold_fmin l : forall x,
  let m := fold_left fmin l x in
  (m = x \/ In m l) /\ m <= x /\ Forall (fun y => m <= y) l.
Proof.
  induction l as [|y l IH]; intros x; simpl.
  - repeat split; auto. apply Qle_refl.
  - destruct (IH (fmin x y)) as (Hin & Hle & Hall).
    destruct (fmin_cases x y) as (Hc & Hx & Hy).
    split; [|split].
    + destruct Hin as [E|I]; [|auto]. rewrite E.
      destruct Hc as [->| ->]; auto.
    + now apply Qle_trans with (fmin x y).
    + constructor; [|exact Hall]. now apply Qle_trans with (fmin x y).
Qed.

Lemma np_max_spec a :
  a <> [] ->
  exists m, np_max a = Ret m /\ In m a /\ Forall (fun y => y <= m) a.
Proof.
  destruct a as [|x l]; [congruence|]. intros _.
  destruct (fold_fmax l x) as (Hin & Hle & Hall).
  exists (fold_left fmax l x). split; [reflexivity|]. split.
  - simpl. destruct Hin as [E|I]; auto.
  - constructor; assumption.
Qed.

Lemma np_min_spec a :
  a <> [] ->
  exists m, np_min a = Ret m /\ In m a /\ Forall (fun y => m <= y) a.
Proof.
  destruct a as [|x l]; [congruence|]. intros _.
  destruct (fold_fmin l x) as (Hin & Hle & Hall).
  exists (fold_left fmin l x). split; [reflexivity|]. split.
  - simpl. destruct Hin as [E|I]; auto.
  - constructor; assumption.
Qed.

(** The energies a mask on the occupations selects. *)
Lemma selected_energy (f : Q -> bool) (mo_energy mo_occ : list Q) (e : Q) :
  In e (map fst (filter (fun p => f (snd p)) (List.combine mo_energy mo_occ)))
  <-> exists o, In (e, o) (List.combine mo_energy mo_occ) /\ f o = true.
Proof.
  rewrite in_map_iff. split.
  - intros ([e' o] & E & H). simpl in E. subst e'.
    apply filter_In in H. exists o. exact H.
  - intros (o & H & F). exists (e, o). split; [reflexivity|].
    apply filter_In. auto.
Qed.

(** X17. [build_init_greens_function] needs an occupied and an unoccupied
    orbital: without an orbital of positive occupation the maximum of line
    618 is taken of an empty array, without one of zero occupation the
    minimum of line 619 is, and the call ends in a [ValueError]; with
    occupations for another number of orbitals it ends in an
    [IndexError]. *)
Theorem build_init_greens_function_raises (mo_energy mo_occ : list Q)
    (frozen : Z * Z) :
  (length mo_occ <> length mo_energy ->
   build_init_greens_function mo_energy mo_occ frozen = Raise IndexError)
  /\ (length mo_occ = length mo_energy ->
      Forall (fun o => o <= 0) mo_occ ->
      build_init_greens_function mo_energy mo_occ frozen
      = Raise (ValueError
          "zero-size array to reduction operation maximum which has no identity"))
  /\ (length mo_occ = length mo_energy ->
      Exists (fun o => 0 < o) mo_occ ->
      Forall (fun o => ~ o == 0) mo_occ ->
      build_init_greens_function mo_energy mo_occ frozen
      = Raise (ValueError
          "zero-size array to reduction operation minimum which has no identity")).
Proof.
  split; [|split].
  - intros H. unfold build_init_greens_function.
    rewrite mask_select_mismatch by (now rewrite length_map). reflexivity.
  - intros H Hall. unfold build_init_greens_function.
    rewrite mask_select_map by exact H.
    rewrite (@Aux.filter_none _ _ (List.combine mo_energy mo_occ)); [reflexivity|].
    apply Forall_forall. intros [e o] Hin. simpl.
    apply in_combine_r in Hin. rewrite Forall_forall in Hall.
    apply Qltb_ge. now apply Hall.
  - intros H Hex Hall. unfold build_init_greens_function.
    rewrite mask_select_map by exact H.
    set (occ := map fst (filter _ _)).
    destruct (@np_max_spec occ) as (homo & E & _).
    { apply Exists_exists in Hex. destruct Hex as (o & Hin & Ho).
      destruct (In_nth mo_occ o 0 Hin) as (k & Hk & Hn).
      assert (Hc : In (nth k mo_energy 0, o) (List.combine mo_energy mo_occ)).
      { rewrite <- Hn, <- combine_nth by (symmetry; exact H).
        apply nth_In. rewrite length_combine. lia. }
      intros F.
      assert (I : In (nth k mo_energy 0) occ).
      { apply selected_energy. exists o. split; [exact Hc|]. now apply Qltb_lt. }
      rewrite F in I. exact I. }
    cbn [and_then]. rewrite E. cbn [and_then].
    rewrite mask_select_map by exact H.
    rewrite (@Aux.filter_none _ _ (List.combine mo_energy mo_occ)); [reflexivity|].
    apply Forall_forall. intros [e o] Hin. simpl.
    apply in_combine_r in Hin. rewrite Forall_forall in Hall.
    destruct (Qeq_bool o 0) eqn:Eo; [|reflexivity].
    apply Qeq_bool_iff in Eo. exfalso. exact (Hall o Hin Eo).
Qed.

Lemma build_init_greens_function_raises_witness :
  build_init_greens_function [-1; 1] [2; 2] (0, 0)%Z
  = Raise (ValueError
      "zero-size array to reduction operation minimum which has no identity")
  /\ build_init_greens_function [-1; 1] [0; 0] (0, 0)%Z
     = Raise (ValueError
         "zero-size array to reduction operation maximum which has no identity")
  /\ build_init_greens_function [-1; 1] [2] (0, 0)%Z = Raise IndexError.
Proof.
  pose proof (@build_init_greens_function_raises [-1; 1] [2; 2] (0, 0)%Z)
    as (_ & _ & H3).
  pose proof (@build_init_greens_function_raises [-1; 1] [0; 0] (0, 0)%Z)
    as (_ & H2 & _).
  pose proof (@build_init_greens_function_raises [-1; 1] [2] (0, 0)%Z)
    as (H1 & _ & _).
  split; [|split].
  - apply H3; [reflexivity | left; reflexivity |].
    repeat constructor; discriminate.
  - apply H2; [reflexivity|]. repeat constructor; discriminate.
  - apply H1. discriminate.
Defined.

Lemma selected_nonempty (f : Q -> bool) (mo_energy mo_occ : list Q) :
  length mo_occ = length mo_energy ->
  Exists (fun o => f o = true) mo_occ ->
  map fst (filter (fun p => f (snd p)) (List.combine mo_energy mo_occ)) <> [].
Proof.
  intros H Hex F. apply Exists_exists in Hex. destruct Hex as (o & Hin & Ho).
  destruct (In_nth mo_occ o 0 Hin) as (k & Hk & Hn).
  assert (Hc : In (nth k mo_energy 0, o) (List.combine mo_energy mo_occ)).
  { rewrite <- Hn, <- combine_nth by (symmetry; exact H).
    apply nth_In. rewrite length_combine. lia. }
  assert (I : In (nth k mo_energy 0)
                 (map fst (filter (fun p => f (snd p))
                                  (List.combine mo_energy mo_occ)))).
  { apply selected_energy. exists o. auto. }
  rewrite F in I. exact I.
Qed.

Lemma of_arrays_naux e v mu : Aux.naux (Aux.of_arrays e v mu) = length e.
Proof.
  unfold Aux.naux, Aux.of_arrays, Aux.new. simpl.
  rewrite (Permutation_length (Aux.argsort_perm _)).
  unfold Aux.poles_of_arrays. now rewrite length_map, length_seq.
Qed.

(** X18. With occupations for every orbital, an occupied and an unoccupied
    orbital, every occupied orbital lower in energy than every unoccupied
    one, and [frozen = (f0, f1)] within the [nmo] orbitals,
    [build_init_greens_function] returns a Green's function of
    [nact = nmo - f0 - f1] poles on [nact] orbitals: the energies of the
    active orbitals, in ascending order; its chemical potential lies above
    every occupied and below every unoccupied orbital energy. *)
Theorem build_init_greens_function_between (mo_energy mo_occ : list Q)
    (f0 f1 : Z) :
  length mo_occ = length mo_energy ->
  (0 <= f0)%Z -> (0 <= f1)%Z -> (f0 + f1 <= Z.of_nat (length mo_energy))%Z ->
  Exists (fun o => 0 < o) mo_occ ->
  Exists (fun o => o == 0) mo_occ ->
  (forall e o e' o',
      In (e, o) (List.combine mo_energy mo_occ) ->
      In (e', o') (List.combine mo_energy mo_occ) ->
      0 < o -> o' == 0 -> e < e') ->
  let nmo := Z.of_nat (length mo_energy) in
  exists gf,
    build_init_greens_function mo_energy mo_occ (f0, f1) = Ret gf
    /\ Aux.naux gf = Z.to_nat (nmo - (f0 + f1))%Z
    /\ Aux.nphys gf = Z.to_nat (nmo - (f0 + f1))%Z
    /\ Permutation (Aux.energies gf)
                   (getslice (snd (_active_slices nmo (f0, f1))) mo_energy)
    /\ StronglySorted Aux.le_energy (Aux.poles gf)
    /\ (forall e o,
          In (e, o) (List.combine mo_energy mo_occ) ->
          (0 < o -> e < Aux.chempot gf) /\ (o == 0 -> Aux.chempot gf < e)).
Proof.
  intros H H0 H1 Hf Hocc Hvir Hgap nmo.
  unfold build_init_greens_function.
  rewrite !mask_select_map by exact H. cbn [and_then].
  set (occ := map fst (filter (fun p => Qltb 0 (snd p)) _)).
  set (vir := map fst (filter (fun p => Qeq_bool (snd p) 0) _)).
  destruct (@np_max_spec occ) as (homo & Eh & Ih & Ah).
  { apply selected_nonempty; [exact H|].
    eapply Exists_impl; [|exact Hocc]. intros o Ho. now apply Qltb_lt. }
  destruct (@np_min_spec vir) as (lumo & El & Il & Al).
  { apply (@selected_nonempty (fun o => Qeq_bool o 0)); [exact H|].
    eapply Exists_impl; [|exact Hvir]. intros o Ho. now apply Qeq_bool_iff. }
  rewrite Eh. cbn [and_then]. rewrite El. cbn [and_then].
  apply selected_energy in Ih. destruct Ih as (oh & Ch & Ph).
  apply (selected_energy (fun o => Qeq_bool o 0)) in Il.
  destruct Il as (ol & Cl & Pl).
  apply Qltb_lt in Ph. apply Qeq_bool_iff in Pl.
  pose proof (Hgap homo oh lumo ol Ch Cl Ph Pl) as Hhl.
  fold nmo. unfold np_eye.
  destruct (Z.ltb_spec (nmo - (fst (f0, f1) + snd (f0, f1))) 0) as [F|_];
    [simpl in F; lia|].
  cbn [and_then].
  pose proof (@active_slice_length Q mo_energy f0 f1 H0 H1 Hf) as Hlen.
  fold nmo in Hlen.
  destruct (Z.leb_spec (Z.of_nat (length (getslice (snd (_active_slices nmo (f0, f1)))
                                            mo_energy)))
                       (nmo - (fst (f0, f1) + snd (f0, f1)))) as [_|F];
    [|rewrite Hlen in F; simpl in F; lia].
  eexists. split; [reflexivity|].
  split; [rewrite of_arrays_naux; exact Hlen|].
  split; [simpl; now rewrite length_map, length_seq|].
  split; [apply Aux.of_arrays_energies|].
  split; [apply Aux.argsort_sorted|].
  intros e o Hin. simpl Aux.chempot. split.
  - intros Ho.
    assert (I : In e occ).
    { apply selected_energy. exists o. split; [exact Hin|]. now apply Qltb_lt. }
    rewrite Forall_forall in Ah. specialize (Ah e I). lra.
  - intros Ho.
    assert (I : In e vir).
    { apply (selected_energy (fun o => Qeq_bool o 0)). exists o.
      split; [exact Hin|]. now apply Qeq_bool_iff. }
    rewrite Forall_forall in Al. specialize (Al e I). lra.
Qed.

(** Four orbitals, the two lowest doubly occupied, the lowest frozen. *)
Lemma build_init_greens_function_between_witness :
  exists gf,
    build_init_greens_function [-3; -1; 1; 3] [2; 2; 0; 0] (1, 0)%Z = Ret gf
    /\ Aux.energies gf = [-1; 1; 3]
    /\ Aux.chempot gf == 0
    /\ Aux.naux gf = 3%nat.
Proof.
  destruct (@build_init_greens_function_between
              [-3; -1; 1; 3] [2; 2; 0; 0] 1 0)
    as (gf & E & Hn & _); try reflexivity; try discriminate.
  - left. reflexivity.
  - right. right. left. reflexivity.
  - intros e o e' o' Hin Hin' Ho Ho'. simpl in Hin, Hin'.
    destruct Hin as [I|[I|[I|[I|[]]]]]; inversion I; subst;
      try (exfalso; discriminate Ho);
      destruct Hin' as [I'|[I'|[I'|[I'|[]]]]]; inversion I'; subst;
      try (exfalso; discriminate Ho'); reflexivity.
  - exists gf. split; [exact E|].
    vm_compute in E. injection E as <-.
    split; [reflexivity|]. split; [reflexivity | reflexivity].
Defined.

(** ** The energies ([energy_mp2], [energy_2body], [e_ip], [e_ea]) *)

(** *** Facts on sums *)

Lemma Qsum_ext {A} (f g : A -> Q) l :
  (forall x, In x l -> f x == g x) -> Qsum (map f l) == Qsum (map g l).
Proof.
  induction l as [|x l IH]; intros H; simpl; [reflexivity|].
  rewrite (H x (or_introl eq_refl)), IH; [reflexivity|].
  intros y Hy. apply H. now right.
Qed.

Lemma Qsum_plus {A} (f g : A -> Q) l :
  Qsum (map (fun x => f x + g x) l) == Qsum (map f l) + Qsum (map g l).
Proof.
  induction l as [|x l IH]; simpl; [reflexivity|]. rewrite IH. ring.
Qed.

Lemma Qsum_scal {A} (c : Q) (f : A -> Q) l :
  Qsum (map (fun x => c * f x) l) == c * Qsum (map f l).
Proof.
  induction l as [|x l IH]; simpl; [ring|]. rewrite IH. ring.
Qed.

Lemma Qsum_zero {A} (l : list A) : Qsum (map (fun _ => 0) l) == 0.
Proof. induction l as [|x l IH]; simpl; [reflexivity|]. rewrite IH. ring. Qed.

Lemma Qsum_swap {A B} (h : A -> B -> Q) l1 l2 :
  Qsum (map (fun x => Qsum (map (fun y => h x y) l2)) l1)
  == Qsum (map (fun y => Qsum (map (fun x => h x y) l1)) l2).
Proof.
  induction l1 as [|x l1 IH]; simpl.
  - now rewrite Qsum_zero.
  - rewrite IH, <- Qsum_plus. reflexivity.
Qed.

Lemma Qsum_nonpos {A} (f : A -> Q) l :
  (forall x, In x l -> f x <= 0) -> Qsum (map f l) <= 0.
Proof.
  induction l as [|x l IH]; intros H; simpl; [apply Qle_refl|].
  assert (f x <= 0) by (apply H; now left).
  assert (Qsum (map f l) <= 0) by (apply IH; intros y Hy; apply H; now right).
  lra.
Qed.

Lemma Qsum_nonneg {A} (f : A -> Q) l :
  (forall x, In x l -> 0 <= f x) -> 0 <= Qsum (map f l).
Proof.
  induction l as [|x l IH]; intros H; simpl; [apply Qle_refl|].
  assert (0 <= f x) by (apply H; now left).
  assert (0 <= Qsum (map f l)) by (apply IH; intros y Hy; apply H; now right).
  lra.
Qed.

(** A square over a negative, respectively positive, denominator. *)
Lemma square_over_negative (u d : Q) : d < 0 -> u * u / d <= 0.
Proof.
  intros Hd.
  assert (E : u * u / d == - (u * u / (- d))).
  { field. intros F. rewrite F in Hd. discriminate Hd. }
  rewrite E.
  assert (0 <= u * u / (- d)).
  { apply Qle_shift_div_l; [lra|]. nra. }
  lra.
Qed.

Lemma square_over_positive (u d : Q) : 0 < d -> 0 <= u * u / d.
Proof. intros Hd. apply Qle_shift_div_l; [exact Hd|]. nra. Qed.

Lemma combine_map_same {A B C} (f : A -> B) (g : A -> C) l :
  List.combine (map f l) (map g l) = map (fun x => (f x, g x)) l.
Proof. induction l as [|x l IH]; simpl; [reflexivity | now rewrite IH]. Qed.

Lemma combine_same {A} (l : list A) a b : In (a, b) (List.combine l l) -> a = b.
Proof.
  induction l as [|x l IH]; simpl; [tauto|].
  intros [E|H]; [now inversion E | now apply IH].
Qed.

Lemma dot_map {A} (a b : A -> Q) l :
  dot (map a l) (map b l) = Qsum (map (fun k => a k * b k) l).
Proof. unfold dot. now rewrite combine_map_same, map_map. Qed.

(** *** The split of a sorted container *)

Lemma get_virtual_above a p :
  StronglySorted Aux.le_energy (Aux.poles a) ->
  In p (Aux.poles (Aux.get_virtual a)) -> Aux.chempot a <= Aux.energy p.
Proof.
  intros Hs Hp. rewrite Aux.get_virtual_sorted in Hp by exact Hs.
  apply filter_In in Hp. destruct Hp as [_ Hv].
  unfold Aux.is_virtual in Hv. apply negb_true_iff in Hv.
  now apply Qltb_ge.
Qed.

Lemma get_occupied_below a p :
  StronglySorted Aux.le_energy (Aux.poles a) ->
  In p (Aux.poles (Aux.get_occupied a)) -> Aux.energy p < Aux.chempot a.
Proof.
  intros Hs Hp. rewrite Aux.get_occupied_sorted in Hp by exact Hs.
  apply filter_In in Hp. destruct Hp as [_ Ho]. now apply Qltb_lt.
Qed.

Lemma coupling_rows_rows a : length (Aux.coupling_rows a) = Aux.nphys a.
Proof. unfold Aux.coupling_rows. now rewrite length_map, length_seq. Qed.

Section Energies.

Variable self : solver.
(** [self.mo_energy]. *)
Variable self_mo_energy : list Q.

(** *** [energy_mp2] *)

(** Lines 921-941.  The rows of the coupling matrix are selected by a mask
    over [mo_energy]; the sum runs over the selected orbitals [x] and the
    poles [k], with the denominators [mo_energy[x] - se.energy[k]]. *)
Definition energy_mp2 (mo_energy : option (list Q)) (se : option SelfEnergy)
    (flip : bool) : outcome Q :=
  let mo_energy :=
    match mo_energy with Some m => m | None => self_mo_energy end in
  let se := obj_or se (self_se self) in
  let mo := if flip
            then map (fun e => negb (Qltb e (Aux.chempot se))) mo_energy
            else map (fun e => Qltb e (Aux.chempot se)) mo_energy in
  let se := if flip then Aux.get_occupied se else Aux.get_virtual se in
  v_se <~ mask_select mo (Aux.coupling_rows se) ;;
  e_mo <~ mask_select mo mo_energy ;;
  let terms :=
    map (fun xr =>
           map (fun kv => snd kv * conj (snd kv) / (fst xr - fst kv))
               (List.combine (Aux.energies se) (snd xr)))
        (List.combine e_mo v_se) in
  Ret (np_sum terms).

Lemma mp2_sign_given (mo_energy : list Q) (se : SelfEnergy) :
  StronglySorted Aux.le_energy (Aux.poles se) ->
  length mo_energy = Aux.nphys se ->
  (exists e, energy_mp2 (Some mo_energy) (Some se) false = Ret e /\ e <= 0)
  /\ (exists e, energy_mp2 (Some mo_energy) (Some se) true = Ret e /\ 0 <= e).
Proof.
  intros Hs Hlen. split.
  - unfold energy_mp2. cbn [obj_or].
    rewrite mask_select_map
      by (rewrite coupling_rows_rows; simpl; exact Hlen).
    cbn [and_then]. rewrite mask_select_map by reflexivity. cbn [and_then].
    eexists. split; [reflexivity|].
    unfold np_sum. rewrite map_map. apply Qsum_nonpos.
    intros [ex row] Hin. apply in_combine_l in Hin. simpl fst. simpl snd.
    apply in_map_iff in Hin. destruct Hin as ([e1 e2] & E & Hf).
    simpl in E. subst e1. apply filter_In in Hf. destruct Hf as [Hc Hlt].
    apply combine_same in Hc. subst e2. simpl in Hlt. apply Qltb_lt in Hlt.
    apply Qsum_nonpos. intros [ek v] Hk. apply in_combine_l in Hk.
    unfold Aux.energies in Hk. apply in_map_iff in Hk.
    destruct Hk as (p & <- & Hp).
    pose proof (get_virtual_above _ _ Hs Hp) as Hge.
    simpl. unfold conj. apply square_over_negative. lra.
  - unfold energy_mp2. cbn [obj_or].
    rewrite mask_select_map
      by (rewrite coupling_rows_rows; simpl; exact Hlen).
    cbn [and_then].
    rewrite (@mask_select_map _ _ (fun e => negb (Qltb e (Aux.chempot se))))
      by reflexivity.
    cbn [and_then].
    eexists. split; [reflexivity|].
    unfold np_sum. rewrite map_map. apply Qsum_nonneg.
    intros [ex row] Hin. apply in_combine_l in Hin. simpl fst. simpl snd.
    apply in_map_iff in Hin. destruct Hin as ([e1 e2] & E & Hf).
    simpl in E. subst e1. apply filter_In in Hf. destruct Hf as [Hc Hge].
    apply combine_same in Hc. subst e2. simpl in Hge.
    apply negb_true_iff, Qltb_ge in Hge.
    apply Qsum_nonneg. intros [ek v] Hk. apply in_combine_l in Hk.
    unfold Aux.energies in Hk. apply in_map_iff in Hk.
    destruct Hk as (p & <- & Hp).
    pose proof (get_occupied_below _ _ Hs Hp) as Hlt.
    simpl. unfold conj. apply square_over_positive. lra.
Qed.

(** X19. With the orbital energies and the self-energy it is given, or
    those of the solver otherwise: on a self-energy with its poles in
    ascending energy and as many rows as there are orbital energies,
    [energy_mp2] returns a value that is never positive, and with [flip] one
    that is never negative: every denominator has the sign of the side of
    the chemical potential it is taken on, so none is zero. *)
Theorem energy_mp2_sign (mo_energy : option (list Q))
    (se : option SelfEnergy) :
  let m := match mo_energy with Some m => m | None => self_mo_energy end in
  let s := obj_or se (self_se self) in
  StronglySorted Aux.le_energy (Aux.poles s) ->
  length m = Aux.nphys s ->
  (exists e, energy_mp2 mo_energy se false = Ret e /\ e <= 0)
  /\ (exists e, energy_mp2 mo_energy se true = Ret e /\ 0 <= e).
Proof.
  intros m s Hs Hlen.
  destruct mo_energy as [m'|], se as [s'|];
    exact (mp2_sign_given m s Hs Hlen).
Qed.

Lemma mp2_size_mismatch_given (mo_energy : list Q) (se : SelfEnergy)
    (flip : bool) :
  length mo_energy <> Aux.nphys se ->
  energy_mp2 (Some mo_energy) (Some se) flip = Raise IndexError.
Proof.
  intros H. unfold energy_mp2. cbn [obj_or].
  rewrite mask_select_mismatch; [reflexivity|].
  rewrite coupling_rows_rows. destruct flip; simpl; now rewrite length_map.
Qed.

(** X20. The mask of [energy_mp2] has one entry for each orbital energy and
    is applied to the rows of the coupling matrix: with a self-energy of
    another number of rows, as one built on the active orbitals of a solver
    that has frozen ones, the call ends in an [IndexError]. *)
Theorem energy_mp2_size_mismatch (mo_energy : option (list Q))
    (se : option SelfEnergy) (flip : bool) :
  let m := match mo_energy with Some m => m | None => self_mo_energy end in
  let s := obj_or se (self_se self) in
  length m <> Aux.nphys s ->
  energy_mp2 mo_energy se flip = Raise IndexError.
Proof.
  intros m s H.
  destruct mo_energy as [m'|], se as [s'|];
    exact (mp2_size_mismatch_given m s flip H).
Qed.

End Energies.

(** *** [energy_2body] *)

(** [m * c[:, None]] for a matrix [m] and a vector [c], with the
    broadcasting of numpy: the numbers of rows agree, or one of them is 1
    (numpy appends the two shapes to the message). *)
Definition scale_rows (m : matrix) (c : list Q) : outcome matrix :=
  if Nat.eqb (length m) (length c)
  then Ret (map (fun rc => map (fun v => v * snd rc) (fst rc))
                (List.combine m c))
  else if Nat.eqb (length c) 1
  then Ret (map (map (fun v => v * nth 0 c 0)) m)
  else if Nat.eqb (length m) 1
  then Ret (map (fun x => map (fun v => v * x) (nth 0 m [])) c)
  else Raise (ValueError "operands could not be broadcast together with shapes").

(** Lines 974-979: what pole [i] of the Green's function adds to [e_2b]. *)
Definition energy_2body_term (gf : GreensFunction) (se : SelfEnergy) (i : nat)
    : outcome Q :=
  let v_gf := map (fun row => nth i row 0) (Aux.coupling_rows gf) in
  let v_se := Aux.coupling_rows se in
  v_dyson <~ scale_rows v_se v_gf ;;
  let delta := map (fun e => nth i (Aux.energies gf) 0 - e) (Aux.energies se) in
  let scaled :=
    map (fun row => map (fun vd => fst vd / snd vd) (List.combine row delta))
        v_dyson in
  Ret (np_sum (dot_T scaled (map (map conj) v_dyson))).

(** Lines 973-979: the loop over the poles of the Green's function. *)
Fixpoint energy_2body_loop (gf : GreensFunction) (se : SelfEnergy)
    (idx : list nat) (e_2b : Q) : outcome Q :=
  match idx with
  | [] => Ret e_2b
  | i :: rest =>
      t <~ energy_2body_term gf se i ;;
      energy_2body_loop gf se rest (e_2b + t)
  end.

Section TwoBody.

Variable self : solver.

(** Lines 958-983. *)
Definition energy_2body (gf : option GreensFunction) (se : option SelfEnergy)
    (flip : bool) : outcome Q :=
  let gf := obj_or gf (self_gf self) in
  let se := obj_or se (self_se self) in
  let gf := if flip then Aux.get_virtual gf else Aux.get_occupied gf in
  let se := if flip then Aux.get_occupied se else Aux.get_virtual se in
  e_2b <~ energy_2body_loop gf se (seq 0 (Aux.naux gf)) 0 ;;
  Ret (e_2b * 2).

End TwoBody.

(** The sum of line 979 is a sum over the poles [k] of the self-energy of
    the square of a column sum over the denominator [d k]. *)
Lemma dyson_sum_squares {X K} (g : X -> K -> Q) (d : K -> Q) xs ks :
  np_sum (dot_T
            (map (fun row => map (fun vd => fst vd / snd vd)
                                 (List.combine row (map d ks)))
                 (map (fun x => map (g x) ks) xs))
            (map (map conj) (map (fun x => map (g x) ks) xs)))
  == Qsum (map (fun k => Qsum (map (fun x => g x k) xs)
                         * Qsum (map (fun x => g x k) xs) / d k) ks).
Proof.
  unfold np_sum, dot_T. rewrite !map_map.
  transitivity
    (Qsum (map (fun x =>
             Qsum (map (fun k => g x k / d k
                                 * Qsum (map (fun x' => g x' k) xs)) ks)) xs)).
  - apply Qsum_ext. intros x _. rewrite map_map.
    transitivity
      (Qsum (map (fun x' => Qsum (map (fun k => g x k / d k * g x' k) ks)) xs)).
    + apply Qsum_ext. intros x' _.
      rewrite combine_map_same, !map_map. simpl.
      unfold conj. rewrite dot_map. reflexivity.
    + rewrite Qsum_swap. apply Qsum_ext. intros k _. apply Qsum_scal.
  - rewrite Qsum_swap. apply Qsum_ext. intros k _.
    transitivity
      (Qsum (map (fun x => (Qsum (map (fun x' => g x' k) xs) * / d k) * g x k) xs)).
    + apply Qsum_ext. intros x _. unfold Qdiv. ring.
    + rewrite Qsum_scal. unfold Qdiv. ring.
Qed.

Lemma scale_rows_same {X K} (f : X -> K -> Q) (c : X -> Q) xs ks :
  scale_rows (map (fun x => map (f x) ks) xs) (map c xs)
  = Ret (map (fun x => map (fun k => f x k * c x) ks) xs).
Proof.
  unfold scale_rows. rewrite !length_map, Nat.eqb_refl.
  rewrite combine_map_same, map_map. simpl.
  f_equal. apply map_ext. intros x. now rewrite map_map.
Qed.

(** One term of the loop, when the two containers have as many rows. *)
Lemma energy_2body_term_squares gf se i :
  Aux.nphys gf = Aux.nphys se ->
  exists t,
    energy_2body_term gf se i = Ret t
    /\ t == Qsum (map (fun p =>
              let s := Qsum (map (fun x => nth x (Aux.coupling p) 0
                                           * nth i (nth x (Aux.coupling_rows gf) []) 0)
                                 (seq 0 (Aux.nphys se))) in
              s * s / (nth i (Aux.energies gf) 0 - Aux.energy p))
            (Aux.poles se)).
Proof.
  intros Hn. unfold energy_2body_term.
  set (c := fun x => nth i (nth x (Aux.coupling_rows gf) []) 0).
  assert (Hgf : map (fun row => nth i row 0) (Aux.coupling_rows gf)
                = map c (seq 0 (Aux.nphys se))).
  { rewrite <- Hn, <- coupling_rows_rows.
    rewrite <- (Aux.map_nth_seq (Aux.coupling_rows gf) []) at 1.
    now rewrite map_map. }
  rewrite Hgf.
  change (Aux.coupling_rows se)
    with (map (fun x => map (fun p => nth x (Aux.coupling p) 0) (Aux.poles se))
              (seq 0 (Aux.nphys se))).
  rewrite scale_rows_same. cbn [and_then].
  eexists. split; [reflexivity|].
  change (Aux.energies se) with (map Aux.energy (Aux.poles se)).
  rewrite (map_map Aux.energy).
  apply (dyson_sum_squares
           (fun x p => nth x (Aux.coupling p) 0 * c x)
           (fun p => nth i (Aux.energies gf) 0 - Aux.energy p)).
Qed.

Lemma energy_2body_loop_sign gf se idx :
  Aux.nphys gf = Aux.nphys se ->
  (forall i p, In i idx -> In p (Aux.poles se) ->
               nth i (Aux.energies gf) 0 - Aux.energy p < 0) ->
  forall acc, acc <= 0 ->
  exists e, energy_2body_loop gf se idx acc = Ret e /\ e <= 0.
Proof.
  intros Hn. induction idx as [|i rest IH]; intros Hd acc Hacc; simpl.
  - now exists acc.
  - destruct (energy_2body_term_squares gf se i Hn) as (t & Et & Ht).
    rewrite Et. cbn [and_then]. apply IH.
    + intros j p Hj Hp. apply Hd; [now right | exact Hp].
    + assert (t <= 0).
      { rewrite Ht. apply Qsum_nonpos. intros p Hp. cbv zeta.
        apply square_over_negative. apply Hd; [now left | exact Hp]. }
      lra.
Qed.

Lemma energy_2body_loop_sign_flip gf se idx :
  Aux.nphys gf = Aux.nphys se ->
  (forall i p, In i idx -> In p (Aux.poles se) ->
               0 < nth i (Aux.energies gf) 0 - Aux.energy p) ->
  forall acc, 0 <= acc ->
  exists e, energy_2body_loop gf se idx acc = Ret e /\ 0 <= e.
Proof.
  intros Hn. induction idx as [|i rest IH]; intros Hd acc Hacc; simpl.
  - now exists acc.
  - destruct (energy_2body_term_squares gf se i Hn) as (t & Et & Ht).
    rewrite Et. cbn [and_then]. apply IH.
    + intros j p Hj Hp. apply Hd; [now right | exact Hp].
    + assert (0 <= t).
      { rewrite Ht. apply Qsum_nonneg. intros p Hp. cbv zeta.
        apply square_over_positive. apply Hd; [now left | exact Hp]. }
      lra.
Qed.

Lemma nth_energy_in (a : Aux.AuxiliarySpace) i :
  In i (seq 0 (Aux.naux a)) ->
  exists p, In p (Aux.poles a) /\ nth i (Aux.energies a) 0 = Aux.energy p.
Proof.
  intros Hi. apply in_seq in Hi. unfold Aux.naux in Hi.
  exists (nth i (Aux.poles a) (Aux.Pole 0 [])). split.
  - apply nth_In. lia.
  - unfold Aux.energies.
    change 0 with (Aux.energy (Aux.Pole 0 [])) at 1. apply map_nth.
Qed.

Lemma two_body_signs (self : solver) (gf : GreensFunction) (se : SelfEnergy) :
  StronglySorted Aux.le_energy (Aux.poles gf) ->
  StronglySorted Aux.le_energy (Aux.poles se) ->
  Aux.nphys gf = Aux.nphys se ->
  (Aux.chempot gf <= Aux.chempot se ->
   exists e, energy_2body self (Some gf) (Some se) false = Ret e /\ e <= 0)
  /\ (Aux.chempot se <= Aux.chempot gf ->
      exists e, energy_2body self (Some gf) (Some se) true = Ret e /\ 0 <= e).
Proof.
  intros Hg Hs Hn. split; intros Hmu; unfold energy_2body; cbn [obj_or].
  - destruct (@energy_2body_loop_sign (Aux.get_occupied gf) (Aux.get_virtual se)
                (seq 0 (Aux.naux (Aux.get_occupied gf)))) with (acc := 0)
      as (e & E & He).
    + exact Hn.
    + intros i p Hi Hp. destruct (nth_energy_in _ _ Hi) as (q & Hq & ->).
      pose proof (get_occupied_below _ _ Hg Hq).
      pose proof (get_virtual_above _ _ Hs Hp). lra.
    + apply Qle_refl.
    + rewrite E. cbn [and_then]. eexists. split; [reflexivity|]. lra.
  - destruct (@energy_2body_loop_sign_flip (Aux.get_virtual gf)
                (Aux.get_occupied se)
                (seq 0 (Aux.naux (Aux.get_virtual gf)))) with (acc := 0)
      as (e & E & He).
    + exact Hn.
    + intros i p Hi Hp. destruct (nth_energy_in _ _ Hi) as (q & Hq & ->).
      pose proof (get_virtual_above _ _ Hg Hq).
      pose proof (get_occupied_below _ _ Hs Hp). lra.
    + apply Qle_refl.
    + rewrite E. cbn [and_then]. eexists. split; [reflexivity|]. lra.
Qed.

(** X21. For a Green's function and a self-energy (those it is given, or
    those of the solver otherwise) with their poles in ascending energy and
    as many rows, [energy_2body] returns a value that is
    never positive when the chemical potential of the Green's function is
    not above that of the self-energy: for each occupied pole of the one and
    each virtual pole of the other line 979 adds the square of a sum over a
    negative denominator.  With [flip], and the chemical potentials the
    other way round, the value is never negative. *)
Theorem energy_2body_sign (self : solver) (gf : option GreensFunction)
    (se : option SelfEnergy) :
  let g := obj_or gf (self_gf self) in
  let s := obj_or se (self_se self) in
  StronglySorted Aux.le_energy (Aux.poles g) ->
  StronglySorted Aux.le_energy (Aux.poles s) ->
  Aux.nphys g = Aux.nphys s ->
  (Aux.chempot g <= Aux.chempot s ->
   exists e, energy_2body self gf se false = Ret e /\ e <= 0)
  /\ (Aux.chempot s <= Aux.chempot g ->
      exists e, energy_2body self gf se true = Ret e /\ 0 <= e).
Proof.
  intros g s Hg Hs Hn.
  destruct gf as [g'|], se as [s'|]; exact (@two_body_signs self g s Hg Hs Hn).
Qed.

(** *** [e_ip] and [e_ea] *)

(** Lines 1407-1410; [gf] is the attribute [self.gf], which is [None] until
    a kernel sets it. *)
Definition e_ip (gf : option GreensFunction) : outcome Q :=
  match gf with
  | None => Raise AttributeError
  | Some gf =>
      m <~ np_max (Aux.energies (Aux.get_occupied gf)) ;;
      Ret (- m)
  end.

Definition e_ea (gf : option GreensFunction) : outcome Q :=
  match gf with
  | None => Raise AttributeError
  | Some gf => np_min (Aux.energies (Aux.get_virtual gf))
  end.

Lemma np_max_in a m : np_max a = Ret m -> In m a.
Proof.
  intros E. destruct a as [|x l]; [discriminate E|].
  destruct (@np_max_spec (x :: l)) as (m' & E' & I & _); [discriminate|].
  rewrite E in E'. now inversion E'.
Qed.

Lemma np_min_in a m : np_min a = Ret m -> In m a.
Proof.
  intros E. destruct a as [|x l]; [discriminate E|].
  destruct (@np_min_spec (x :: l)) as (m' & E' & I & _); [discriminate|].
  rewrite E in E'. now inversion E'.
Qed.

(** X22. On a Green's function with its poles in ascending energy, [e_ip]
    is minus the energy of a pole below the chemical potential and [e_ea] the
    energy of a pole not below it, so the gap [e_ip + e_ea] that
    [print_energies] reports is positive; [e_ip] returns exactly when there
    is a pole below the chemical potential and ends in a [ValueError]
    otherwise, [e_ea] likewise for a pole not below it; before a kernel has
    set [self.gf] both end in an [AttributeError]. *)
Theorem quasi_particle_gap (gf : GreensFunction) :
  StronglySorted Aux.le_energy (Aux.poles gf) ->
  (forall ip ea,
      e_ip (Some gf) = Ret ip -> e_ea (Some gf) = Ret ea ->
      - ip < Aux.chempot gf /\ Aux.chempot gf <= ea /\ 0 < ip + ea)
  /\ (Exists (fun p => Aux.energy p < Aux.chempot gf) (Aux.poles gf) ->
      exists ip, e_ip (Some gf) = Ret ip)
  /\ (Forall (fun p => Aux.chempot gf <= Aux.energy p) (Aux.poles gf) ->
      e_ip (Some gf)
      = Raise (ValueError
          "zero-size array to reduction operation maximum which has no identity"))
  /\ (Exists (fun p => Aux.chempot gf <= Aux.energy p) (Aux.poles gf) ->
      exists ea, e_ea (Some gf) = Ret ea)
  /\ (Forall (fun p => Aux.energy p < Aux.chempot gf) (Aux.poles gf) ->
      e_ea (Some gf)
      = Raise (ValueError
          "zero-size array to reduction operation minimum which has no identity"))
  /\ e_ip None = Raise AttributeError
  /\ e_ea None = Raise AttributeError.
Proof.
  intros Hs.
  assert (Hocc : Aux.energies (Aux.get_occupied gf)
                 = map Aux.energy
                       (filter (Aux.is_occupied (Aux.chempot gf)) (Aux.poles gf))).
  { unfold Aux.energies. now rewrite Aux.get_occupied_sorted. }
  assert (Hvir : Aux.energies (Aux.get_virtual gf)
                 = map Aux.energy
                       (filter (Aux.is_virtual (Aux.chempot gf)) (Aux.poles gf))).
  { unfold Aux.energies. now rewrite Aux.get_virtual_sorted. }
  split; [|split; [|split; [|split; [|split; [|split]]]]].
  - intros ip ea Ei Ea. unfold e_ip, e_ea in *.
    destruct (np_max (Aux.energies (Aux.get_occupied gf))) as [m|] eqn:Em;
      [|discriminate Ei].
    simpl in Ei. inversion Ei. subst ip.
    apply np_max_in in Em. apply np_min_in in Ea.
    unfold Aux.energies in Em, Ea.
    apply in_map_iff in Em. destruct Em as (p & <- & Hp).
    apply in_map_iff in Ea. destruct Ea as (q & <- & Hq).
    pose proof (get_occupied_below _ _ Hs Hp).
    pose proof (get_virtual_above _ _ Hs Hq).
    repeat split; lra.
  - intros Hex. unfold e_ip.
    destruct (@np_max_spec (Aux.energies (Aux.get_occupied gf)))
      as (m & E & _).
    { rewrite Hocc. apply Exists_exists in Hex. destruct Hex as (p & Hp & Hlt).
      intros F.
      assert (I : In (Aux.energy p)
                     (map Aux.energy
                          (filter (Aux.is_occupied (Aux.chempot gf))
                                  (Aux.poles gf)))).
      { apply in_map, filter_In. split; [exact Hp|]. now apply Qltb_lt. }
      rewrite F in I. exact I. }
    rewrite E. simpl. eauto.
  - intros Hall. unfold e_ip. rewrite Hocc, Aux.filter_none; [reflexivity|].
    eapply Forall_impl; [|exact Hall]. intros p Hp. now apply Qltb_ge.
  - intros Hex. unfold e_ea.
    destruct (@np_min_spec (Aux.energies (Aux.get_virtual gf)))
      as (m & E & _).
    { rewrite Hvir. apply Exists_exists in Hex. destruct Hex as (p & Hp & Hge).
      intros F.
      assert (I : In (Aux.energy p)
                     (map Aux.energy
                          (filter (Aux.is_virtual (Aux.chempot gf))
                                  (Aux.poles gf)))).
      { apply in_map, filter_In. split; [exact Hp|].
        unfold Aux.is_virtual. now apply negb_true_iff, Qltb_ge. }
      rewrite F in I. exact I. }
    eauto.
  - intros Hall. unfold e_ea. rewrite Hvir, Aux.filter_none; [reflexivity|].
    eapply Forall_impl; [|exact Hall]. intros p Hp.
    unfold Aux.is_virtual. now apply negb_false_iff, Qltb_lt.
  - reflexivity.
  - reflexivity.
Qed.

(** ** The quasi-particles of [build_self_energy] *)

(** Line 484: [(gf.energy < gf.chempot).astype(int) * 2]. *)
Definition qmo_occ (gf : GreensFunction) : list Z :=
  map (fun e => ((if Qltb e (Aux.chempot gf) then 1 else 0) * 2)%Z)
      (Aux.energies gf).

(** Lines 487-491: the occupied and the virtual quasi-particles, that is
    [(ei, ci)] and [(ea, ca)], pole by pole. *)
Definition quasi_particles (gf : GreensFunction)
    : outcome (list Aux.pole * list Aux.pole) :=
  occ <~ mask_select (map (fun o => (0 <? o)%Z) (qmo_occ gf)) (Aux.poles gf) ;;
  vir <~ mask_select (map (fun o => (o =? 0)%Z) (qmo_occ gf)) (Aux.poles gf) ;;
  Ret (occ, vir).

Lemma filter_combine_same {A} (f : A -> bool) l :
  map fst (filter (fun p => f (snd p)) (List.combine l l)) = filter f l.
Proof.
  induction l as [|x l IH]; simpl; [reflexivity|].
  destruct (f x); simpl; now rewrite IH.
Qed.

Lemma mask_select_self {A} (f : A -> bool) l :
  mask_select (map f l) l = Ret (filter f l).
Proof.
  rewrite mask_select_map by reflexivity. now rewrite filter_combine_same.
Qed.

Lemma filter_split_perm {A} (f : A -> bool) l :
  Permutation (filter f l ++ filter (fun x => negb (f x)) l) l.
Proof.
  induction l as [|x l IH]; simpl; [constructor|].
  destruct (f x); simpl.
  - now apply perm_skip.
  - apply Permutation_sym, Permutation_cons_app, Permutation_sym, IH.
Qed.

Lemma quasi_particles_filters (gf : GreensFunction) :
  quasi_particles gf
  = Ret (filter (Aux.is_occupied (Aux.chempot gf)) (Aux.poles gf),
         filter (Aux.is_virtual (Aux.chempot gf)) (Aux.poles gf)).
Proof.
  unfold quasi_particles, qmo_occ, Aux.energies. rewrite !map_map.
  rewrite !mask_select_self. cbn [and_then]. do 2 f_equal.
  - apply filter_ext. intros p. unfold Aux.is_occupied.
    now destruct (Qltb (Aux.energy p) (Aux.chempot gf)).
  - apply filter_ext. intros p. unfold Aux.is_virtual.
    now destruct (Qltb (Aux.energy p) (Aux.chempot gf)).
Qed.

(** X23. The masks of [build_self_energy] split the poles of the Green's
    function into those below its chemical potential and the others: each
    pole is on one side, none is lost; and for poles in ascending energy the
    two sides are what [get_occupied] and [get_virtual] return, the split
    that [energy_2body] uses, and in this order they make up the Green's
    function again. *)
Theorem quasi_particles_split (gf : GreensFunction) :
  let occ := filter (Aux.is_occupied (Aux.chempot gf)) (Aux.poles gf) in
  let vir := filter (Aux.is_virtual (Aux.chempot gf)) (Aux.poles gf) in
  quasi_particles gf = Ret (occ, vir)
  /\ Permutation (occ ++ vir) (Aux.poles gf)
  /\ (StronglySorted Aux.le_energy (Aux.poles gf) ->
      occ = Aux.poles (Aux.get_occupied gf)
      /\ vir = Aux.poles (Aux.get_virtual gf)
      /\ occ ++ vir = Aux.poles gf).
Proof.
  intros occ vir. split; [|split].
  - apply quasi_particles_filters.
  - apply filter_split_perm.
  - intros Hs. subst occ vir.
    rewrite Aux.get_occupied_sorted, Aux.get_virtual_sorted by exact Hs.
    split; [reflexivity|]. split; [reflexivity|].
    rewrite <- Aux.take_while_sorted, <- Aux.skipn_take_while_sorted by exact Hs.
    rewrite <- Aux.firstn_take_while at 1. apply firstn_skipn.
Qed.

(** ** [build_self_energy] *)

Section BuildSelfEnergy.

Variable get_fock : GreensFunction -> matrix.
Variable compress : Z -> matrix -> SelfEnergy -> SelfEnergy.
Variable poles_by_eigh : list matrix -> list Q * matrix.
Variable poles_by_lanczos : list matrix -> list Q * matrix.
Variable integrals : Type.
Variable build_mats_incore : integrals -> list Q -> list Q -> Q -> Q -> list matrix.
Variable contract_moments :
  Z -> bool -> Q -> Q -> integrals -> list Q -> list Q -> list matrix.
(** Lines 499-510: the integrals of [self.eri] between the orbitals of the
    slice [x] and two sets of quasi-particles ([_ao2mo_3c] or [_ao2mo_4c]). *)
Variable mo_to_qmo : slice -> list Aux.pole -> list Aux.pole -> integrals.
(** Lines 515-519: [n] matrices of zeros of size [nact], with the moments
    written to the block of the slice [x]. *)
Variable place_moments : Z -> nat -> slice -> list matrix -> list matrix.
(** Lines 534-535 and 551-552: the smallest and the largest eigenvalue of
    [t[0]] ([numpy.linalg.eigvalsh]), for the log; an exception when [t] has
    no entry, the matrix no row, or numpy fails. *)
Variable eigenvalue_range : list matrix -> outcome (Q * Q).

Variable self : solver.

(** Lines 474-578; the argument [se_prev] is not read. *)
Definition build_self_energy (gf : GreensFunction) : outcome SelfEnergy :=
  qp <~ quasi_particles gf ;;
  let (occ, vir) := qp in
  let ei := map Aux.energy occ in
  let ea := map Aux.energy vir in
  let nh := (nocc self - fst (frozen self))%Z in
  let (xo, xv) :=
    if Opt.non_dyson (opts self)
    then (Slice None (Some nh), Slice (Some nh) None)
    else (Slice None None, Slice None None) in
  let xija := mo_to_qmo xo occ vir in
  let xabi := mo_to_qmo xv vir occ in
  let n := (2 * Opt.nmom_lanczos (opts self) + 2)%Z in
  let t_occ :=
    place_moments n (nact self) xo
      (_build_moments build_mats_incore contract_moments self
         ei ea xija None None) in
  let t_vir :=
    place_moments n (nact self) xv
      (_build_moments build_mats_incore contract_moments self
         ea ei xabi None None) in
  w_occ <~ eigenvalue_range t_occ ;;
  let se_occ :=
    _build_se_from_moments poles_by_eigh poles_by_lanczos self
      t_occ (Aux.chempot gf) in
  w_vir <~ eigenvalue_range t_vir ;;
  let se_vir :=
    _build_se_from_moments poles_by_eigh poles_by_lanczos self
      t_vir (Aux.chempot gf) in
  Ret (_combine_se get_fock compress self se_occ se_vir (Some gf)).

Lemma build_self_energy_result (gf : GreensFunction) (se : SelfEnergy) :
  build_self_energy gf = Ret se ->
  exists se_occ se_vir,
    se = _combine_se get_fock compress self se_occ se_vir (Some gf)
    /\ Aux.chempot se_occ = Aux.chempot gf.
Proof.
  unfold build_self_energy.
  rewrite quasi_particles_filters. cbn [and_then].
  destruct (Opt.non_dyson (opts self));
    (match goal with
     | |- context [and_then (eigenvalue_range ?t)] =>
         destruct (eigenvalue_range t); cbn [and_then]; [|discriminate]
     end;
     match goal with
     | |- context [and_then (eigenvalue_range ?t)] =>
         destruct (eigenvalue_range t); cbn [and_then]; [|discriminate]
     end;
     intros H; inversion H; do 2 eexists; split; [reflexivity|];
     apply _build_se_from_moments_chempot).
Qed.

Lemma build_self_energy_facts (gf : GreensFunction) (se : SelfEnergy) :
  Opt.nmom_projection (opts self) = None ->
  build_self_energy gf = Ret se ->
  Aux.chempot se = Aux.chempot gf
  /\ StronglySorted Aux.le_energy (Aux.poles se).
Proof.
  intros Hn H. destruct (@build_self_energy_result gf se H) as (so & sv & -> & Hc).
  split; [now rewrite _combine_se_chempot | now apply _combine_se_sorted].
Qed.

(** X24. Whatever the integrals and the moments, a self-energy that
    [build_self_energy] returns has no pole of weight below [weight_tol];
    without the moment projection it carries the chemical potential of the
    Green's function and has its poles in ascending energy. *)
Theorem build_self_energy_returns_pruned (gf : GreensFunction)
    (se : SelfEnergy) :
  build_self_energy gf = Ret se ->
  Aux.pruned (Opt.weight_tol (opts self)) se
  /\ (Opt.nmom_projection (opts self) = None ->
      Aux.chempot se = Aux.chempot gf
      /\ StronglySorted Aux.le_energy (Aux.poles se)).
Proof.
  intros H. split; [|intros Hn; exact (@build_self_energy_facts gf se Hn H)].
  destruct (@build_self_energy_result gf se H) as (so & sv & -> & _).
  apply _combine_se_pruned.
Qed.

End BuildSelfEnergy.

(** ** The two-body energy of an iteration *)

Section Iteration.

Variable eigh : matrix -> list Q * matrix.
Variable get_fock : GreensFunction -> matrix.
Variable make_rdm1 : GreensFunction -> matrix.
Variable binsearch_chempot : list Q * matrix -> nat -> Z -> Q * Q.
Variable minimize_chempot : SelfEnergy -> matrix -> Z -> Q -> Q -> Z -> SelfEnergy.
Variable max_abs_change : matrix -> matrix -> Q.
Variable compress : Z -> matrix -> SelfEnergy -> SelfEnergy.
Variable moments_of : Z -> Aux.AuxiliarySpace -> list matrix.
Variable poles_by_eigh : list matrix -> list Q * matrix.
Variable poles_by_lanczos : list matrix -> list Q * matrix.
Variable integrals : Type.
Variable build_mats_incore : integrals -> list Q -> list Q -> Q -> Q -> list matrix.
Variable contract_moments :
  Z -> bool -> Q -> Q -> integrals -> list Q -> list Q -> list matrix.
Variable mo_to_qmo : slice -> list Aux.pole -> list Aux.pole -> integrals.
Variable place_moments : Z -> nat -> slice -> list matrix -> list matrix.
Variable eigenvalue_range : list matrix -> outcome (Q * Q).
Variable diis : Type.
Variable new_diis : Z -> Z -> diis.
Variable lib_diis_fock : diis -> matrix -> diis * outcome matrix.
Variable lib_diis_moments :
  diis -> list matrix * list matrix -> diis * outcome (list matrix * list matrix).
Variable self : solver.

(** X25. The steps of an iteration of [RAGF2.kernel] (lines 1238-1244),
    one after the other, without the moment projection: when the Fock loop
    returns [gf] after at least one outer cycle (or with the option
    [fock_loop] off), [build_self_energy] returns a self-energy for it and
    [run_diis] returns [se] for that, with as many rows as [gf], then
    [energy_2body(gf=gf, se=se)] returns, and the two-body energy it gives
    is never positive. *)
Theorem two_body_energy_never_positive (gf0 : GreensFunction)
    (se0 : SelfEnergy) (d : diis) (se_prev : option SelfEnergy)
    (r : fock_loop_return) (se_new se : SelfEnergy) :
  Opt.nmom_projection (opts self) = None ->
  (Opt.fock_loop (opts self) = true ->
   (1 <= Opt.max_cycle_outer (opts self))%Z) ->
  result_of (fock_loop eigh get_fock make_rdm1 binsearch_chempot
               minimize_chempot max_abs_change new_diis lib_diis_fock
               self (Some gf0) (Some se0) None true false) = Ret r ->
  build_self_energy get_fock compress poles_by_eigh poles_by_lanczos
    build_mats_incore contract_moments mo_to_qmo place_moments
    eigenvalue_range self (returned_gf r) = Ret se_new ->
  snd (run_diis get_fock compress moments_of poles_by_eigh poles_by_lanczos
         lib_diis_moments self se_new (Some (returned_gf r)) d se_prev)
  = Ret se ->
  Aux.nphys (returned_gf r) = Aux.nphys se ->
  exists e_2b,
    energy_2body self (Some (returned_gf r)) (Some se) false = Ret e_2b
    /\ e_2b <= 0.
Proof.
  intros Hn Houter Er Eb Ed Hrows.
  destruct (fock_loop_agree _ _ _ _ _ _ _ _ _ _ _ _ _ _ Houter Er) as [_ Hg].
  destruct (build_self_energy_facts _ _ _ _ _ _ _ _ _ _ _ Hn Eb) as [Hmu _].
  destruct (run_diis_facts _ _ _ _ _ _ _ _ _ _ _ Hn Ed) as [Hmu' Hs].
  apply (proj1 (@two_body_signs self _ _ Hg Hs Hrows)).
  rewrite Hmu', Hmu. apply Qle_refl.
Qed.

End Iteration.

(** ** The cube files of [RAGF2.kernel] ([dump_cube]) *)

(** [self.qmo_coeff] (line 1375): [numpy.dot(self.mo_coeff, self.gf.coupling)];
    entry [(a, k)] is the product of row [a] of [mo_coeff] with the coupling
    vector of pole [k].  numpy refuses the product when the rows of
    [mo_coeff] and the coupling vectors differ in length (its message names
    the two shapes). *)
Definition qmo_coeff (mo_coeff : matrix) (gf : GreensFunction) : outcome matrix :=
  if forallb (fun row => Nat.eqb (length row) (Aux.nphys gf)) mo_coeff
  then Ret (map (fun row => map (fun p => dot row (Aux.coupling p))
                                (Aux.poles gf))
                mo_coeff)
  else Raise (ValueError "shapes not aligned").

(** Lines 1085-1099.  Line 1094 reads [grid], a name that line 1095 assigns,
    hence local to the method, and that nothing has bound. *)
Definition dump_cube (mo_coeff : matrix) (gf : GreensFunction) (index : Z)
    : outcome unit :=
  qmo <~ qmo_coeff mo_coeff gf ;;
  grid <~ (Raise UnboundLocalError : outcome (Z * Z * Z)) ;;
  Ret tt.

(** Lines 1287-1291: the loop over [i], for [nocc = gf_occ.naux] and
    [naux = gf.naux]. *)
Fixpoint dump_cubes_loop (mo_coeff : matrix) (gf : GreensFunction)
    (nocc naux : Z) (idx : list Z) : outcome unit :=
  match idx with
  | [] => Ret tt
  | i :: rest =>
      _ <~ (if (0 <=? nocc - 1 - i)%Z
            then dump_cube mo_coeff gf (nocc - 1 - i)
            else Ret tt) ;;
      _ <~ (if (nocc + i <? naux)%Z
            then dump_cube mo_coeff gf (nocc + i)
            else Ret tt) ;;
      dump_cubes_loop mo_coeff gf nocc naux rest
  end.

(** Lines 1283-1291 of [kernel] (and 1343-1351 of [kernel_adc]), for the
    option [dump_cubefiles]. *)
Definition dump_cubes (dump_cubefiles : Z) (mo_coeff : matrix)
    (gf : GreensFunction) : outcome unit :=
  if (dump_cubefiles =? 0)%Z then Ret tt
  else
    let gf_occ := Aux.get_occupied gf in
    dump_cubes_loop mo_coeff gf (Z.of_nat (Aux.naux gf_occ))
      (Z.of_nat (Aux.naux gf)) (py_range 0 dump_cubefiles).

Lemma dump_cube_raises mo_coeff gf index :
  exists e, dump_cube mo_coeff gf index = Raise e.
Proof.
  unfold dump_cube. destruct (qmo_coeff mo_coeff gf); simpl; eauto.
Qed.

Lemma dump_cubes_loop_empty mo_coeff gf idx :
  Forall (fun i => (0 <= i)%Z) idx ->
  dump_cubes_loop mo_coeff gf 0 0 idx = Ret tt.
Proof.
  induction 1 as [|i rest Hi _ IH]; cbn [dump_cubes_loop]; [reflexivity|].
  destruct (Z.leb_spec 0 (0 - 1 - i)); [lia|].
  destruct (Z.ltb_spec (0 + i) 0); [lia|]. exact IH.
Qed.

Lemma py_range_nonneg lo hi :
  (0 <= lo)%Z -> Forall (fun i => (0 <= i)%Z) (py_range lo hi).
Proof.
  intros H. unfold py_range. apply Forall_forall. intros i Hi.
  apply in_map_iff in Hi. destruct Hi as (k & <- & _). lia.
Qed.

(** X26. [dump_cube] never returns, so the option [dump_cubefiles] cannot
    be used: the lines of [kernel] that write the cube files return exactly
    when [dump_cubefiles <= 0] or the Green's function has no pole, and end
    in an exception in every other case. *)
Theorem dump_cubes_returns_iff (dump_cubefiles : Z) (mo_coeff : matrix)
    (gf : GreensFunction) :
  dump_cubes dump_cubefiles mo_coeff gf = Ret tt
  <-> (dump_cubefiles <= 0)%Z \/ Aux.naux gf = 0%nat.
Proof.
  unfold dump_cubes. split.
  - destruct (Z.eqb_spec dump_cubefiles 0) as [->|Hn]; [intros _; left; lia|].
    destruct (Z_le_gt_dec dump_cubefiles 0) as [Hle|Hgt]; [intros _; now left|].
    destruct (Aux.naux gf) as [|n] eqn:En; [intros _; now right|].
    rewrite py_range_cons by lia. cbn [dump_cubes_loop].
    destruct (Z.leb_spec 0 (Z.of_nat (Aux.naux (Aux.get_occupied gf)) - 1 - 0)).
    + destruct (dump_cube_raises mo_coeff gf
                  (Z.of_nat (Aux.naux (Aux.get_occupied gf)) - 1 - 0)) as [e ->].
      discriminate.
    + cbn [and_then].
      destruct (Z.ltb_spec (Z.of_nat (Aux.naux (Aux.get_occupied gf)) + 0)
                           (Z.of_nat (S n))); [|lia].
      destruct (dump_cube_raises mo_coeff gf
                  (Z.of_nat (Aux.naux (Aux.get_occupied gf)) + 0)) as [e ->].
      discriminate.
  - intros [Hle|Hz].
    + destruct (Z.eqb_spec dump_cubefiles 0); [reflexivity|].
      rewrite py_range_nil by lia. reflexivity.
    + destruct (Z.eqb_spec dump_cubefiles 0); [reflexivity|].
      assert (Ho : Aux.naux (Aux.get_occupied gf) = 0%nat).
      { unfold Aux.naux in *. apply length_zero_iff_nil in Hz.
        unfold Aux.get_occupied. simpl. rewrite Hz.
        now rewrite firstn_nil. }
      rewrite Ho, Hz. apply dump_cubes_loop_empty, py_range_nonneg. lia.
Qed.

(** ** More runs of the two-orbital model *)

(** The defaults, with [max_cycle] and [conv_tol] set. *)
Definition options_tuned (max_cycle : Z) (conv_tol : Q) : Opt.RAGF2Options := {|
  Opt.weight_tol := Opt.weight_tol Opt.defaults;
  Opt.non_dyson := Opt.non_dyson Opt.defaults;
  Opt.nmom_lanczos := Opt.nmom_lanczos Opt.defaults;
  Opt.nmom_projection := Opt.nmom_projection Opt.defaults;
  Opt.os_factor := Opt.os_factor Opt.defaults;
  Opt.ss_factor := Opt.ss_factor Opt.defaults;
  Opt.diagonal_se := Opt.diagonal_se Opt.defaults;
  Opt.max_cycle := max_cycle;
  Opt.conv_tol := conv_tol;
  Opt.conv_tol_t0 := Opt.conv_tol_t0 Opt.defaults;
  Opt.conv_tol_t1 := Opt.conv_tol_t1 Opt.defaults;
  Opt.damping := Opt.damping Opt.defaults;
  Opt.diis_space := Opt.diis_space Opt.defaults;
  Opt.diis_min_space := Opt.diis_min_space Opt.defaults;
  Opt.as_adc := Opt.as_adc Opt.defaults;
  Opt.extra_cycle := Opt.extra_cycle Opt.defaults;
  Opt.fock_loop := Opt.fock_loop Opt.defaults;
  Opt.max_cycle_outer := Opt.max_cycle_outer Opt.defaults;
  Opt.max_cycle_inner := Opt.max_cycle_inner Opt.defaults;
  Opt.conv_tol_rdm1 := Opt.conv_tol_rdm1 Opt.defaults;
  Opt.conv_tol_nelec := Opt.conv_tol_nelec Opt.defaults;
  Opt.conv_tol_nelec_factor := Opt.conv_tol_nelec_factor Opt.defaults;
  Opt.fock_diis_space := Opt.fock_diis_space Opt.defaults;
  Opt.fock_diis_min_space := Opt.fock_diis_min_space Opt.defaults;
  Opt.fock_damping := Opt.fock_damping Opt.defaults
|}.

Lemma fock_loop_no_outer_cycle_witness :
  Model.fock_loop (Model.options_with true 0 50) None None None true false
  = ([CallGetFock], Ret (Return3 Model.g0 Model.se0 false))
  /\ result_of (Model.fock_loop (Model.options_with true 0 50)
                  None None None false false)
     = Raise UnboundLocalError.
Proof.
  unfold Model.fock_loop.
  apply (@fock_loop_no_outer_cycle Model.eigh Model.get_fock Model.make_rdm1
           Model.binsearch_chempot Model.minimize_chempot
           Model.max_abs_change unit Model.new_diis
           (@Model.diis_identity matrix)
           (Model.solver_with (Model.options_with true 0 50))
           None None None false);
    [reflexivity | discriminate].
Defined.


Lemma fock_loop_shares_chempot_witness :
  exists r,
    result_of (Model.fock_loop (Model.options_with true 20 50)
                 None None None true false) = Ret r
    /\ Aux.chempot (returned_gf r) = Aux.chempot (returned_se r)
    /\ StronglySorted Aux.le_energy (Aux.poles (returned_gf r)).
Proof.
  destruct (result_of (Model.fock_loop (Model.options_with true 20 50)
                         None None None true false)) as [r|e] eqn:E;
    [|vm_compute in E; discriminate E].
  exists r. split; [reflexivity|].
  unfold Model.fock_loop in E.
  refine (@fock_loop_shares_chempot Model.eigh Model.get_fock Model.make_rdm1
            Model.binsearch_chempot Model.minimize_chempot
            Model.max_abs_change unit Model.new_diis
            (@Model.diis_identity matrix)
            (Model.solver_with (Model.options_with true 20 50))
            None None None true false r _ E).
  intros _. discriminate.
Defined.



(** Three iterations that never meet a tolerance of zero: no iteration is
    within the tolerances. *)
Lemma unconverged_run_never_passed_witness :
  converged (Model.RAGF2_kernel (options_tuned 3 0)) = false
  /\ forall l1 c1 c2 l2,
       checks (Model.RAGF2_kernel (options_tuned 3 0)) = l1 ++ c1 :: c2 :: l2 ->
       within_tolerances (options_tuned 3 0) (snd c1) = true ->
       within_tolerances (options_tuned 3 0) (snd c2) = false.
Proof.
  split; [vm_compute; reflexivity|].
  apply (proj1 (@unconverged_run_never_passed (options_tuned 3 0) unit
                  Model.new_diis Model.g0 Model.build_self_energy
                  (Model.fock_loop_step (options_tuned 3 0))
                  (Model.run_diis_step (options_tuned 3 0))
                  Model.energy_1body Model.energy_2body (-1)
                  Model.moment_change Model.fragment_self_energy
                  (Model.dyson_fock_step (options_tuned 3 0)))
               None None (-1) 0 eq_refl).
  vm_compute. reflexivity.
Defined.

Lemma EAGF2_results_of_last_iteration_witness :
  exists r,
    Model.EAGF2_kernel Opt.defaults 1 = Ret r
    /\ Aux.pruned 1e-12 (a_gf (final r)).
Proof.
  destruct (Model.EAGF2_kernel Opt.defaults 1) as [r|e] eqn:E;
    [|vm_compute in E; discriminate E].
  exists r. split; [reflexivity|].
  unfold Model.EAGF2_kernel in E.
  exact (proj2 (proj2 (proj2 (proj2
           (@EAGF2_results_of_last_iteration Opt.defaults unit Model.new_diis
              (Model.run_diis_step Opt.defaults) Model.energy_1body
              Model.energy_2body (-1) Model.moment_change
              Model.fragment_self_energy
              (Model.dyson_fock_step Opt.defaults) 1%nat 2%nat Model.fock0
              r E))))).
Defined.

(** Two orbitals at [-1] and [1], and a self-energy of one pole on each
    side of the chemical potential [0]: the only term of [energy_mp2] is
    [1 / (-1 - 2)]. *)
Lemma energy_mp2_sign_witness :
  let se := Aux.of_arrays [-2; 2] [[1; 1]; [1; 1]] 0 in
  energy_mp2 (Model.solver_with Opt.defaults) [] (Some [-1; 1]) (Some se) false
  = Ret (- (1 # 3))
  /\ (exists e, energy_mp2 (Model.solver_with Opt.defaults) []
                  (Some [-1; 1]) (Some se) false = Ret e /\ e <= 0)
  /\ (exists e, energy_mp2 (Model.solver_with Opt.defaults) []
                  (Some [-1; 1]) (Some se) true = Ret e /\ 0 <= e).
Proof.
  cbv zeta. split; [reflexivity|].
  apply (@energy_mp2_sign (Model.solver_with Opt.defaults) []
           (Some [-1; 1])
           (Some (Aux.of_arrays [-2; 2] [[1; 1]; [1; 1]] 0))).
  - apply Aux.argsort_sorted.
  - reflexivity.
Defined.

(** Three orbital energies against a self-energy of two rows. *)
Lemma energy_mp2_size_mismatch_witness :
  energy_mp2 (Model.solver_with Opt.defaults) []
    (Some [-3; -1; 1]) (Some (Aux.of_arrays [-2; 2] [[1; 1]; [1; 1]] 0)) false
  = Raise IndexError.
Proof.
  apply (@energy_mp2_size_mismatch (Model.solver_with Opt.defaults) []
           (Some [-3; -1; 1])
           (Some (Aux.of_arrays [-2; 2] [[1; 1]; [1; 1]] 0)) false).
  discriminate.
Defined.

(** The mean-field Green's function of the model against a self-energy of
    two poles. *)
Lemma energy_2body_sign_witness :
  let se := Aux.of_arrays [-2; 2] [[1; 1]; [1; 1]] 0 in
  (exists e, energy_2body (Model.solver_with Opt.defaults)
               (Some Model.g0) (Some se) false = Ret e /\ e <= 0)
  /\ (exists e, energy_2body (Model.solver_with Opt.defaults)
                  (Some Model.g0) (Some se) true = Ret e /\ 0 <= e).
Proof.
  cbv zeta.
  destruct (@energy_2body_sign (Model.solver_with Opt.defaults)
              (Some Model.g0)
              (Some (Aux.of_arrays [-2; 2] [[1; 1]; [1; 1]] 0)))
    as [H1 H2].
  - apply Aux.argsort_sorted.
  - apply Aux.argsort_sorted.
  - reflexivity.
  - split; [apply H1 | apply H2]; discriminate.
Defined.

Lemma quasi_particle_gap_witness :
  e_ip (Some Model.g0) = Ret 1 /\ e_ea (Some Model.g0) = Ret 1
  /\ - (1) < Aux.chempot Model.g0 /\ Aux.chempot Model.g0 <= 1 /\ 0 < 1 + 1.
Proof.
  split; [reflexivity|]. split; [reflexivity|].
  apply (proj1 (@quasi_particle_gap Model.g0 (Aux.argsort_sorted _)) 1 1);
    reflexivity.
Defined.

Lemma quasi_particles_split_witness :
  quasi_particles Model.g0
  = Ret (Aux.poles (Aux.get_occupied Model.g0),
         Aux.poles (Aux.get_virtual Model.g0))
  /\ Aux.poles (Aux.get_occupied Model.g0) ++ Aux.poles (Aux.get_virtual Model.g0)
     = Aux.poles Model.g0.
Proof.
  destruct (@quasi_particles_split Model.g0) as (E & _ & H).
  destruct (H (Aux.argsort_sorted _)) as (Ho & Hv & Ha).
  rewrite <- Ho, <- Hv. split; [exact E | exact Ha].
Defined.


(** Two poles, one on each side of the chemical potential, whatever the
    moments; the occupied and the virtual part of the self-energy each get
    them. *)
Definition two_poles (t : list matrix) : list Q * matrix :=
  ([-2; 2], [[1; 1]; [1; 1]]).

Definition model_build_self_energy (gf : GreensFunction) : outcome SelfEnergy :=
  build_self_energy Model.get_fock Model.compress two_poles two_poles
    (fun (_ : unit) _ _ _ _ => []) (fun _ _ _ _ _ _ _ => [])
    (fun _ _ _ => tt) (fun _ _ _ t => t) (fun _ => Ret (0, 1))
    (Model.solver_with Opt.defaults) gf.

Lemma build_self_energy_returns_pruned_witness :
  exists se,
    model_build_self_energy Model.g0 = Ret se
    /\ Aux.energies se = [-2; -2; 2; 2]
    /\ Aux.pruned (Opt.weight_tol Opt.defaults) se
    /\ Aux.chempot se = Aux.chempot Model.g0
    /\ StronglySorted Aux.le_energy (Aux.poles se).
Proof.
  destruct (model_build_self_energy Model.g0) as [se|x] eqn:E;
    [|vm_compute in E; discriminate E].
  exists se. split; [reflexivity|].
  split; [vm_compute in E; injection E as <-; reflexivity|].
  unfold model_build_self_energy in E.
  destruct (@build_self_energy_returns_pruned Model.get_fock Model.compress
              two_poles two_poles unit
              (fun (_ : unit) _ _ _ _ => []) (fun _ _ _ _ _ _ _ => [])
              (fun _ _ _ => tt) (fun _ _ _ t => t) (fun _ => Ret (0, 1))
              (Model.solver_with Opt.defaults) Model.g0 se E)
    as (Hp & H).
  split; [exact Hp|]. exact (H eq_refl).
Defined.

(** One iteration on the model: the Fock loop, a self-energy of two poles,
    its extrapolation, and the two-body energy. *)
Lemma two_body_energy_never_positive_witness :
  exists r se_new se e_2b,
    result_of (Model.fock_loop Opt.defaults
                 (Some Model.g0) (Some Model.se0) None true false) = Ret r
    /\ model_build_self_energy (returned_gf r) = Ret se_new
    /\ snd (run_diis Model.get_fock Model.compress Model.moments_of
              two_poles two_poles
              (@Model.diis_identity (list matrix * list matrix))
              (Model.solver_with Opt.defaults)
              se_new (Some (returned_gf r)) tt None) = Ret se
    /\ energy_2body (Model.solver_with Opt.defaults)
         (Some (returned_gf r)) (Some se) false = Ret e_2b
    /\ e_2b <= 0.
Proof.
  destruct (result_of (Model.fock_loop Opt.defaults
                         (Some Model.g0) (Some Model.se0) None true false))
    as [r|x] eqn:Er; [|vm_compute in Er; discriminate Er].
  pose proof Er as Hr. vm_compute in Hr. injection Hr as Hr.
  destruct (model_build_self_energy (returned_gf r)) as [se_new|x] eqn:Eb;
    [|rewrite <- Hr in Eb; vm_compute in Eb; discriminate Eb].
  pose proof Eb as Hb. rewrite <- Hr in Hb. vm_compute in Hb.
  injection Hb as Hb.
  destruct (snd (run_diis Model.get_fock Model.compress Model.moments_of
                   two_poles two_poles
                   (@Model.diis_identity (list matrix * list matrix))
                   (Model.solver_with Opt.defaults)
                   se_new (Some (returned_gf r)) tt None))
    as [se|x] eqn:Ed;
    [|rewrite <- Hr, <- Hb in Ed; vm_compute in Ed; discriminate Ed].
  pose proof Ed as Hd. rewrite <- Hr, <- Hb in Hd. vm_compute in Hd.
  injection Hd as Hd.
  assert (Hn : Aux.nphys (returned_gf r) = Aux.nphys se)
    by (rewrite <- Hr, <- Hd; reflexivity).
  unfold Model.fock_loop in Er. unfold model_build_self_energy in Eb.
  destruct (@two_body_energy_never_positive Model.eigh Model.get_fock
              Model.make_rdm1 Model.binsearch_chempot Model.minimize_chempot
              Model.max_abs_change Model.compress Model.moments_of
              two_poles two_poles unit
              (fun (_ : unit) _ _ _ _ => []) (fun _ _ _ _ _ _ _ => [])
              (fun _ _ _ => tt) (fun _ _ _ t => t) (fun _ => Ret (0, 1))
              unit Model.new_diis (@Model.diis_identity matrix)
              (@Model.diis_identity (list matrix * list matrix))
              (Model.solver_with Opt.defaults)
              Model.g0 Model.se0 tt None r se_new se
              eq_refl (fun _ => ltac:(discriminate)) Er Eb Ed Hn)
    as (e & E & He).
  exists r, se_new, se, e. repeat split; [exact Eb | exact Ed | exact E | exact He].
Defined.

Lemma dump_cubes_returns_iff_witness :
  dump_cubes 1 [[1; 0]; [0; 1]] Model.g0 = Raise UnboundLocalError
  /\ dump_cubes 0 [[1; 0]; [0; 1]] Model.g0 = Ret tt.
Proof.
  split; [reflexivity|].
  apply (proj2 (dump_cubes_returns_iff 0 [[1; 0]; [0; 1]] Model.g0)).
  left. discriminate.
Defined.
